(** * TraceOfTab: the computed artifact of
      lighthouse-core/gather/computed/trace-of-tab.js

    A shallow embedding of [isNavigationStartOfInterest],
    [filteredStableSort] and [compute_], and the properties of the
    artifact that the design document states.

    Numbers.  Trace timestamps, durations, process and thread ids are
    integers ([Z]); the millisecond timings, which the source obtains by
    dividing by 1000, are exact rationals ([Q]).

    Exceptions.  A computation that can throw returns a [result]; the
    constructors of [Failure] are the exceptions the source can raise. *)

From Stdlib Require Import List String Ascii ZArith QArith Bool Lia.
From Stdlib Require Import Sorted Permutation.
Import ListNotations.

Local Open Scope Z_scope.

(** ** Exceptions *)

Inductive Failure : Type :=
| NO_NAVSTART             (* new LHError(LHError.errors.NO_NAVSTART) *)
| NO_FCP                  (* new LHError(LHError.errors.NO_FCP) *)
| TypeError               (* property read on undefined; reduce of an empty array *)
| FrameResolutionFailure. (* whatever TracingProcessor.findTracingStartedEvt threw *)

Inductive result (A : Type) : Type :=
| Ok (a : A)
| Throw (x : Failure).

Arguments Ok {A} a.
Arguments Throw {A} x.

Definition bind {A B : Type} (c : result A) (k : A -> result B) : result B :=
  match c with
  | Ok a => k a
  | Throw x => Throw x
  end.

Declare Scope result_scope.
Delimit Scope result_scope with result.
Notation "x <- c ;; k" := (bind c (fun x => k))
  (at level 61, c at next level, right associativity) : result_scope.
Notation "' p <- c ;; k" := (bind c (fun x => let 'p := x in k))
  (at level 61, p pattern, c at next level, right associativity) : result_scope.

(** ** Trace events (LH.TraceEvent) *)

Record EventData : Type := mkData {
  documentLoaderURL : option string
}.

Record EventArgs : Type := mkArgs {
  frame : option string;
  data : option EventData
}.

Record TraceEvent : Type := mkEvent {
  name : string;
  cat : string;
  pid : Z;
  tid : Z;
  ts : Z;
  dur : option Z;
  args : EventArgs
}.

Record Trace : Type := mkTrace {
  traceEvents : list TraceEvent
}.

(** ** JavaScript primitives used by the source *)

(** [String.prototype.includes]. *)
Definition includes (s sub : string) : bool :=
  match String.index 0 sub s with
  | Some _ => true
  | None => false
  end.

(** [Array.prototype.pop] applied to a fresh array, as an expression:
    the last element, [undefined] on the empty array. *)
Fixpoint pop {A : Type} (l : list A) : option A :=
  match l with
  | [] => None
  | [x] => Some x
  | _ :: l' => pop l'
  end.

(** [ACCEPTABLE_NAVIGATION_URL_REGEX.test(url)] for /^(chrome|https?):/. *)
Definition ACCEPTABLE_NAVIGATION_URL_REGEX_test (url : string) : bool :=
  String.prefix "chrome:" url || String.prefix "http:" url || String.prefix "https:" url.

(** ** isNavigationStartOfInterest *)

(** [!event.args.data || !event.args.data.documentLoaderURL || REGEX.test(...)];
    the empty string is falsy. *)
Definition isNavigationStartOfInterest (event : TraceEvent) : bool :=
  String.eqb (name event) "navigationStart" &&
  match data (args event) with
  | None => true
  | Some d =>
      match documentLoaderURL d with
      | None => true
      | Some EmptyString => true
      | Some url => ACCEPTABLE_NAVIGATION_URL_REGEX_test url
      end
  end.

(** ** filteredStableSort *)

(** The first loop: the positions, counted from [srcIndex], of the events
    that pass [filter]. *)
Fixpoint keptIndices (filter : TraceEvent -> bool) (traceEvents : list TraceEvent)
    (srcIndex : nat) : list nat :=
  match traceEvents with
  | [] => []
  | e :: rest =>
      if filter e then srcIndex :: keptIndices filter rest (S srcIndex)
      else keptIndices filter rest (S srcIndex)
  end.

(** [traceEvents[index].ts]: reading [ts] of [undefined] throws. *)
Definition tsAt (traceEvents : list TraceEvent) (index : nat) : result Z :=
  match nth_error traceEvents index with
  | Some e => Ok (ts e)
  | None => Throw TypeError
  end.

(** The comparator handed to [indices.sort]. *)
Definition compareIndices (traceEvents : list TraceEvent) (indexA indexB : nat)
    : result Z :=
  (tsA <- tsAt traceEvents indexA ;;
   tsB <- tsAt traceEvents indexB ;;
   let result := tsA - tsB in
   Ok (if result =? 0 then Z.of_nat indexA - Z.of_nat indexB else result))%result.

(** [Array.prototype.sort] with a comparator, as an insertion sort.  The
    comparator of the source is a strict total order on distinct positions,
    so every sorting algorithm returns the same array
    ([sorted_indices_unique] below). *)
Fixpoint insertIndex (cmp : nat -> nat -> result Z) (x : nat) (l : list nat)
    : result (list nat) :=
  match l with
  | [] => Ok [x]
  | y :: l' =>
      (c <- cmp x y ;;
       if c <=? 0 then Ok (x :: y :: l')
       else (r <- insertIndex cmp x l' ;; Ok (y :: r)))%result
  end.

Fixpoint sortIndices (cmp : nat -> nat -> result Z) (l : list nat)
    : result (list nat) :=
  match l with
  | [] => Ok []
  | x :: l' => (s <- sortIndices cmp l' ;; insertIndex cmp x s)%result
  end.

(** The last loop: [sorted.push(traceEvents[indices[i]])].  A position
    outside the array would push [undefined]; the model reports it as a
    failure, and [filteredStableSort_stable] shows it never happens. *)
Fixpoint materialize (traceEvents : list TraceEvent) (indices : list nat)
    : result (list TraceEvent) :=
  match indices with
  | [] => Ok []
  | i :: rest =>
      match nth_error traceEvents i with
      | Some e => (sorted <- materialize traceEvents rest ;; Ok (e :: sorted))%result
      | None => Throw TypeError
      end
  end.

Definition filteredStableSort (traceEvents : list TraceEvent)
    (filter : TraceEvent -> bool) : result (list TraceEvent) :=
  (let indices := keptIndices filter traceEvents 0 in
   indices <- sortIndices (compareIndices traceEvents) indices ;;
   materialize traceEvents indices)%result.

(** ** The artifact (LH.Artifacts.TraceOfTab) *)

(** LH.Artifacts.TraceTimes: [undefined] entries are [None]. *)
Module TraceTimes.
Record t (N : Type) : Type := mk {
  navigationStart : N;
  firstPaint : option N;
  firstContentfulPaint : N;
  firstMeaningfulPaint : option N;
  traceEnd : N;
  load : option N;
  domContentLoaded : option N
}.
Arguments mk {N}.
Arguments navigationStart {N}.
Arguments firstPaint {N}.
Arguments firstContentfulPaint {N}.
Arguments firstMeaningfulPaint {N}.
Arguments traceEnd {N}.
Arguments load {N}.
Arguments domContentLoaded {N}.
End TraceTimes.

Record TraceOfTab : Type := mkTraceOfTab {
  timings : TraceTimes.t Q;
  timestamps : TraceTimes.t Z;
  processEvents : list TraceEvent;
  mainThreadEvents : list TraceEvent;
  startedInPageEvt : TraceEvent;
  navigationStartEvt : TraceEvent;
  firstPaintEvt : option TraceEvent;
  firstContentfulPaintEvt : TraceEvent;
  firstMeaningfulPaintEvt : option TraceEvent;
  loadEvt : option TraceEvent;
  domContentLoadedEvt : option TraceEvent;
  fmpFellBack : bool
}.

(** ** compute_ *)

(** The filter of the first [filteredStableSort] call. *)
Definition isKeyEvent (e : TraceEvent) : bool :=
  includes (cat e) "blink.user_timing" ||
  includes (cat e) "loading" ||
  includes (cat e) "devtools.timeline" ||
  String.eqb (cat e) "__metadata".

(** [e => e.args.frame === frameId] *)
Definition inFrame (frameId : string) (e : TraceEvent) : bool :=
  match frame (args e) with
  | Some f => String.eqb f frameId
  | None => false
  end.

(** [e => e.name === marker && e.ts > navigationStart.ts] *)
Definition markerAfter (marker : string) (navigationStart : TraceEvent)
    (e : TraceEvent) : bool :=
  String.eqb (name e) marker && (ts e >? ts navigationStart).

(** [e => e.name === fmpCand] *)
Definition isCandidate (e : TraceEvent) : bool :=
  String.eqb (name e) "firstMeaningfulPaintCandidate".

(** [trace.traceEvents.reduce((max, evt) => max.ts > evt.ts ? max : evt)];
    without an initial value, [reduce] throws on the empty array. *)
Definition reduceMaxTs (traceEvents : list TraceEvent) : result TraceEvent :=
  match traceEvents with
  | [] => Throw TypeError
  | first :: rest =>
      Ok (fold_left (fun max evt => if ts max >? ts evt then max else evt) rest first)
  end.

(** [traceEnd.ts + (traceEnd.dur || 0)] *)
Definition endOf (traceEnd : TraceEvent) : Z :=
  ts traceEnd +
  match dur traceEnd with
  | Some d => if d =? 0 then 0 else d
  | None => 0
  end.

(** [getTimestamp] *)
Definition getTimestamp (event : option TraceEvent) : option Z :=
  option_map ts event.

(** [getTiming], closed over [navigationStart]. *)
Definition getTiming (navigationStart : TraceEvent) (t : Z) : Q :=
  (inject_Z (t - ts navigationStart) / inject_Z 1000)%Q.

(** [maybeGetTiming] *)
Definition maybeGetTiming (navigationStart : TraceEvent) (t : option Z) : option Q :=
  match t with
  | None => None
  | Some t => Some (getTiming navigationStart t)
  end.

(** The first-meaningful-paint event and [fmpFellBack].  The Sentry message
    and the verbose log lines of the fallback branch write to external sinks
    and do not enter the result; they are left out. *)
Definition resolveFirstMeaningfulPaint (frameEvents : list TraceEvent)
    (navigationStart : TraceEvent) : option TraceEvent * bool :=
  match find (markerAfter "firstMeaningfulPaint" navigationStart) frameEvents with
  | Some firstMeaningfulPaint => (Some firstMeaningfulPaint, false)
  | None =>
      let lastCandidate := pop (filter isCandidate frameEvents) in
      (lastCandidate, true)
  end.

(** [TracingProcessor.findTracingStartedEvt] is not part of this file of the
    source; [compute_] takes it as an argument.  It returns the start event
    and the frame id, or throws. *)
Definition FrameResolver : Type :=
  list TraceEvent -> option (TraceEvent * string).

Definition resolveFrame (findTracingStartedEvt : FrameResolver)
    (keyEvents : list TraceEvent) : result (TraceEvent * string) :=
  match findTracingStartedEvt keyEvents with
  | Some r => Ok r
  | None => Throw FrameResolutionFailure
  end.

Definition compute_ (findTracingStartedEvt : FrameResolver) (trace : Trace)
    : result TraceOfTab :=
  (keyEvents <- filteredStableSort (traceEvents trace) isKeyEvent ;;
   '(startedInPageEvt, frameId) <- resolveFrame findTracingStartedEvt keyEvents ;;
   let frameEvents := filter (inFrame frameId) keyEvents in
   match pop (filter isNavigationStartOfInterest frameEvents) with
   | None => Throw NO_NAVSTART
   | Some navigationStart =>
   let firstPaint := find (markerAfter "firstPaint" navigationStart) frameEvents in
   match find (markerAfter "firstContentfulPaint" navigationStart) frameEvents with
   | None => Throw NO_FCP
   | Some firstContentfulPaint =>
   let '(firstMeaningfulPaint, fmpFellBack) :=
     resolveFirstMeaningfulPaint frameEvents navigationStart in
   let load := find (markerAfter "loadEventEnd" navigationStart) frameEvents in
   let domContentLoaded :=
     find (markerAfter "domContentLoadedEventEnd" navigationStart) frameEvents in
   processEvents <- filteredStableSort (traceEvents trace)
                      (fun e => pid e =? pid startedInPageEvt) ;;
   let mainThreadEvents :=
     filter (fun e => tid e =? tid startedInPageEvt) processEvents in
   traceEnd <- reduceMaxTs (traceEvents trace) ;;
   let fakeEndOfTraceEvt := endOf traceEnd in
   let timestamps :=
     TraceTimes.mk (ts navigationStart)
       (getTimestamp firstPaint)
       (ts firstContentfulPaint)
       (getTimestamp firstMeaningfulPaint)
       fakeEndOfTraceEvt
       (getTimestamp load)
       (getTimestamp domContentLoaded) in
   let timings :=
     TraceTimes.mk 0%Q
       (maybeGetTiming navigationStart (TraceTimes.firstPaint timestamps))
       (getTiming navigationStart (TraceTimes.firstContentfulPaint timestamps))
       (maybeGetTiming navigationStart (TraceTimes.firstMeaningfulPaint timestamps))
       (getTiming navigationStart (TraceTimes.traceEnd timestamps))
       (maybeGetTiming navigationStart (TraceTimes.load timestamps))
       (maybeGetTiming navigationStart (TraceTimes.domContentLoaded timestamps)) in
   Ok (mkTraceOfTab timings timestamps processEvents mainThreadEvents
         startedInPageEvt navigationStart firstPaint firstContentfulPaint
         firstMeaningfulPaint load domContentLoaded fmpFellBack)
   end end)%result.

(** ** Specification vocabulary *)

(** The timestamp at a position of the array (0 outside it). *)
Definition tsOf (evts : list TraceEvent) (i : nat) : Z :=
  match nth_error evts i with
  | Some e => ts e
  | None => 0
  end.

(** The order the comparator sorts by: timestamp first, position second. *)
Definition indexLe (evts : list TraceEvent) (a b : nat) : Prop :=
  tsOf evts a < tsOf evts b \/ (tsOf evts a = tsOf evts b /\ (a <= b)%nat).

Definition inRange (evts : list TraceEvent) (i : nat) : Prop :=
  (i < List.length evts)%nat.

(** [hasTime evts t i]: position [i] of [evts] holds an event with timestamp [t]. *)
Definition hasTime (evts : list TraceEvent) (t : Z) (i : nat) : bool :=
  match nth_error evts i with
  | Some e => ts e =? t
  | None => false
  end.

(** Ascending timestamps. *)
Definition tsLe (a b : TraceEvent) : Prop := ts a <= ts b.

Definition chronological (l : list TraceEvent) : Prop := StronglySorted tsLe l.

(** The events of a list that carry timestamp [t], in the order of the list. *)
Definition atTime (t : Z) (l : list TraceEvent) : list TraceEvent :=
  filter (fun e => ts e =? t) l.

(** [out] is the stable chronological arrangement of [l]: the same events,
    by ascending timestamp, events of one timestamp in the order of [l]. *)
Definition stablySorted (l out : list TraceEvent) : Prop :=
  Permutation l out /\ chronological out /\
  forall t, atTime t out = atTime t l.

(** Microseconds since navigation start, in milliseconds. *)
Definition toMilliseconds (navigationStartTs t : Z) : Q :=
  (inject_Z (t - navigationStartTs) / inject_Z 1000)%Q.

(** The frame-scoped events of [compute_]. *)
Definition frameEventsOf (frameId : string) (keyEvents : list TraceEvent)
    : list TraceEvent :=
  filter (inFrame frameId) keyEvents.

(** The record [compute_] returns once the start event, the navigation
    start, the first contentful paint, the process events and the event of
    the largest timestamp are known. *)
Definition artifact (startedInPageEvt navigationStart firstContentfulPaint : TraceEvent)
    (frameEvents processEvents : list TraceEvent) (traceEnd : TraceEvent)
    : TraceOfTab :=
  let firstPaint := find (markerAfter "firstPaint" navigationStart) frameEvents in
  let firstMeaningfulPaint :=
    fst (resolveFirstMeaningfulPaint frameEvents navigationStart) in
  let load := find (markerAfter "loadEventEnd" navigationStart) frameEvents in
  let domContentLoaded :=
    find (markerAfter "domContentLoadedEventEnd" navigationStart) frameEvents in
  mkTraceOfTab
    (TraceTimes.mk 0%Q
       (maybeGetTiming navigationStart (getTimestamp firstPaint))
       (getTiming navigationStart (ts firstContentfulPaint))
       (maybeGetTiming navigationStart (getTimestamp firstMeaningfulPaint))
       (getTiming navigationStart (endOf traceEnd))
       (maybeGetTiming navigationStart (getTimestamp load))
       (maybeGetTiming navigationStart (getTimestamp domContentLoaded)))
    (TraceTimes.mk (ts navigationStart)
       (getTimestamp firstPaint)
       (ts firstContentfulPaint)
       (getTimestamp firstMeaningfulPaint)
       (endOf traceEnd)
       (getTimestamp load)
       (getTimestamp domContentLoaded))
    processEvents
    (filter (fun e => tid e =? tid startedInPageEvt) processEvents)
    startedInPageEvt navigationStart firstPaint firstContentfulPaint
    firstMeaningfulPaint load domContentLoaded
    (snd (resolveFirstMeaningfulPaint frameEvents navigationStart)).

(** The trace end as the design document words it: the largest
    [timestamp + (duration or 0)] over all events of the trace. *)
Definition specTraceEnd (evts : list TraceEvent) : option Z :=
  match evts with
  | [] => None
  | first :: rest => Some (fold_left (fun m e => Z.max m (endOf e)) rest (endOf first))
  end.

(** ** Sample traces *)

Module Samples.

Local Open Scope string_scope.

(** A frame resolver for tests: a fixed start event and frame id. *)
Definition stubResolver (startedInPageEvt : TraceEvent) (frameId : string)
    : FrameResolver :=
  fun _ => Some (startedInPageEvt, frameId).

(** A user-timing marker of frame "F" in process 1, thread 1. *)
Definition marker (n : string) (t : Z) : TraceEvent :=
  mkEvent n "blink.user_timing" 1 1 t None (mkArgs (Some "F") None).

(** A navigationStart of frame "F" with a document loader URL. *)
Definition navigation (url : string) (t : Z) : TraceEvent :=
  mkEvent "navigationStart" "blink.user_timing" 1 1 t None
          (mkArgs (Some "F") (Some (mkData (Some url)))).

(** A timeline slice with a duration, on thread [thread] of process [process]. *)
Definition slice (process thread t d : Z) : TraceEvent :=
  mkEvent "RunTask" "toplevel" process thread t (Some d) (mkArgs None None).

Definition started : TraceEvent :=
  mkEvent "TracingStartedInPage" "disabled-by-default-devtools.timeline" 1 1 100 None
          (mkArgs None None).

Definition resolver : FrameResolver := stubResolver started "F".

(** Navigation start at 1000, first contentful paint at 2500, first
    meaningful paint at 3000; the capture order is not chronological. *)
Definition plain : Trace :=
  mkTrace [ marker "firstMeaningfulPaint" 3000;
            started;
            slice 1 1 1200 50;
            slice 1 2 1200 70;
            slice 2 1 1100 10;
            marker "firstContentfulPaint" 2500;
            slice 1 1 1200 20;
            marker "navigationStart" 1000 ].

(** The first meaningful paint is reported before the first contentful
    paint. *)
Definition meaningfulFirst : Trace :=
  mkTrace [ started;
            marker "navigationStart" 1000;
            marker "firstMeaningfulPaint" 1500;
            marker "firstContentfulPaint" 2000 ].

(** No firstMeaningfulPaint; two candidates, both before the navigation
    start. *)
Definition candidatesOnly : Trace :=
  mkTrace [ started;
            marker "firstMeaningfulPaintCandidate" 300;
            marker "firstMeaningfulPaintCandidate" 600;
            marker "navigationStart" 1000;
            marker "firstContentfulPaint" 2000 ].

(** Neither a firstMeaningfulPaint nor a candidate. *)
Definition noMeaningfulPaint : Trace :=
  mkTrace [ started;
            marker "navigationStart" 1000;
            marker "firstContentfulPaint" 2000 ].

(** An accepted navigation start, then one with a rejected scheme. *)
Definition twoNavigations : Trace :=
  mkTrace [ started;
            navigation "https://example.com/" 1000;
            navigation "about:blank" 3000;
            marker "firstContentfulPaint" 4000 ].

(** The only navigation start of the frame has a rejected scheme. *)
Definition rejectedNavigation : Trace :=
  mkTrace [ started;
            navigation "about:blank" 1000;
            marker "firstContentfulPaint" 2000 ].

(** A long slice that starts before, and ends after, the last event. *)
Definition longSlice : Trace :=
  mkTrace [ started;
            marker "navigationStart" 1000;
            slice 1 1 1500 5000;
            marker "firstContentfulPaint" 2000 ].

End Samples.

(** ** Further vocabulary and samples *)

(** What [Array.prototype.sort] promises for a consistent comparator: every
    element compares at most 0 with every later one. *)
Definition sortedByComparator (cmp : nat -> nat -> result Z) (l : list nat) : Prop :=
  StronglySorted (fun a b => exists c, cmp a b = Ok c /\ c <= 0) l.

(** An event of the trace that passes the category filter and carries the
    frame id: the events [compute_] searches for markers. *)
Definition frameKeyEvent (trace : Trace) (frameId : string) (e : TraceEvent) : Prop :=
  In e (traceEvents trace) /\ isKeyEvent e = true /\ inFrame frameId e = true.

(** The start event, the marker events and fmpFellBack of an artifact. *)
Definition markerEvents (r : TraceOfTab) :=
  (startedInPageEvt r, navigationStartEvt r, firstPaintEvt r,
   firstContentfulPaintEvt r, firstMeaningfulPaintEvt r, loadEvt r,
   domContentLoadedEvt r, fmpFellBack r).

(** The entries of a TraceTimes other than traceEnd. *)
Definition markerTimes {N : Type} (t : TraceTimes.t N) :=
  (TraceTimes.navigationStart t, TraceTimes.firstPaint t,
   TraceTimes.firstContentfulPaint t, TraceTimes.firstMeaningfulPaint t,
   TraceTimes.load t, TraceTimes.domContentLoaded t).

(** The regular expression of the source as syntax: literals, [a|b],
    concatenation and [a?]. *)
Inductive Regex : Type :=
| Lit (s : string)
| Alt (a b : Regex)
| Seq (a b : Regex)
| Opt (a : Regex).

(** [strip p s]: [s] without its prefix [p], when it has that prefix. *)
Fixpoint strip (p s : string) : option string :=
  match p, s with
  | EmptyString, _ => Some s
  | String _ _, EmptyString => None
  | String a p', String b s' => if Ascii.eqb a b then strip p' s' else None
  end.

(** Backtracking match of [r] at the start of [s]; [k] decides on the rest
    of the string.  The greedy [a?] tries [a] first. *)
Fixpoint matchAt (r : Regex) (s : string) (k : string -> bool) : bool :=
  match r with
  | Lit p =>
      match strip p s with
      | Some rest => k rest
      | None => false
      end
  | Alt a b => matchAt a s k || matchAt b s k
  | Seq a b => matchAt a s (fun rest => matchAt b rest k)
  | Opt a => matchAt a s k || k s
  end.

(** /^(chrome|https?):/ *)
Definition ACCEPTABLE_NAVIGATION_URL_REGEX : Regex :=
  Seq (Alt (Lit "chrome") (Seq (Lit "http") (Opt (Lit "s")))) (Lit ":").

(** [regex.test(s)] for a pattern anchored with ^ and without flags: a
    match at position 0, whatever follows. *)
Definition anchoredTest (r : Regex) (s : string) : bool :=
  matchAt r s (fun _ => true).

Module Examples.

Local Open Scope string_scope.

(** The events of [Samples.meaningfulFirst] in another capture order. *)
Definition shuffled : list TraceEvent :=
  [ Samples.marker "firstContentfulPaint" 2000;
    Samples.marker "navigationStart" 1000;
    Samples.started;
    Samples.marker "firstMeaningfulPaint" 1500 ].

(** [Samples.plain] with more slices, none of them a key event. *)
Definition plainWithSlices : Trace :=
  mkTrace (Samples.slice 3 1 900 5 :: traceEvents Samples.plain
           ++ [Samples.slice 1 1 3600 30]).

(** A resolver that fails on every input. *)
Definition failingResolver : FrameResolver := fun _ => None.

(** A navigationStart of frame "F" on thread [thread]. *)
Definition navigation_on (thread t : Z) : TraceEvent :=
  mkEvent "navigationStart" "blink.user_timing" 1 thread t None
          (mkArgs (Some "F") None).

(** A firstContentfulPaint of frame "F" on thread [thread]. *)
Definition paint_on (thread t : Z) : TraceEvent :=
  mkEvent "firstContentfulPaint" "loading" 1 thread t None
          (mkArgs (Some "F") None).

(** All the optional markers, and a later load event. *)
Definition complete : Trace :=
  mkTrace [ Samples.started;
            Samples.marker "loadEventEnd" 5000;
            Samples.marker "navigationStart" 1000;
            Samples.marker "firstPaint" 1800;
            Samples.marker "firstContentfulPaint" 2000;
            Samples.marker "firstContentfulPaint" 1900;
            Samples.marker "domContentLoadedEventEnd" 2500;
            Samples.marker "firstMeaningfulPaint" 3000;
            Samples.marker "loadEventEnd" 4000 ].

(** Two navigation starts at one timestamp, then two first contentful
    paints at one timestamp, told apart by their threads. *)
Definition tied : Trace :=
  mkTrace [ Samples.started;
            navigation_on 3 1000;
            navigation_on 4 1000;
            paint_on 7 2000;
            paint_on 8 2000 ].

End Examples.

(** * Properties *)

(** ** Generic list facts *)

Lemma pop_app_last {A : Type} (l : list A) (x : A) : pop (l ++ [x]) = Some x.
Proof.
  induction l as [|y l IH]; simpl; [reflexivity|].
  rewrite IH. destruct (l ++ [x]) eqn:E; [|reflexivity].
  destruct l; discriminate.
Qed.

Lemma pop_None {A : Type} (l : list A) : pop l = None <-> l = [].
Proof.
  split; [|intros ->; reflexivity].
  induction l as [|y l IH]; [reflexivity|].
  simpl. destruct l; [discriminate|]. intros H. apply IH in H. discriminate.
Qed.

Lemma pop_Some {A : Type} (l : list A) (x : A) :
  pop l = Some x <-> exists pre, l = pre ++ [x].
Proof.
  split.
  - induction l as [|y l IH]; [discriminate|].
    simpl. destruct l as [|z l'].
    + intros [= ->]. exists []. reflexivity.
    + intros H. destruct (IH H) as [pre Hpre]. exists (y :: pre).
      rewrite Hpre. reflexivity.
  - intros [pre ->]. apply pop_app_last.
Qed.

Lemma Permutation_filter {A : Type} (p : A -> bool) (l l' : list A) :
  Permutation l l' -> Permutation (filter p l) (filter p l').
Proof.
  induction 1 as [|x l l' _ IH|x y l|l l' l'' _ IH1 _ IH2]; simpl.
  - constructor.
  - destruct (p x); [constructor|]; exact IH.
  - destruct (p x), (p y); try apply Permutation_refl. apply perm_swap.
  - eapply Permutation_trans; eassumption.
Qed.

Lemma StronglySorted_filter {A : Type} (R : A -> A -> Prop) (p : A -> bool)
    (l : list A) :
  StronglySorted R l -> StronglySorted R (filter p l).
Proof.
  induction 1 as [|x l Hs IH Hall]; simpl; [constructor|].
  destruct (p x); [|exact IH].
  constructor; [exact IH|].
  rewrite Forall_forall in *. intros y Hy. apply filter_In in Hy. apply Hall, Hy.
Qed.

(** A list sorted by an antisymmetric order is determined by its elements. *)
Lemma StronglySorted_unique {A : Type} (R : A -> A -> Prop) :
  (forall a b, R a b -> R b a -> a = b) ->
  forall l l', StronglySorted R l -> StronglySorted R l' ->
               Permutation l l' -> l = l'.
Proof.
  intros Hanti l. induction l as [|a l IH]; intros l' Hl Hl' Hp.
  - apply Permutation_nil in Hp. subst. reflexivity.
  - destruct l' as [|b l'].
    + apply Permutation_sym, Permutation_nil in Hp. discriminate.
    + inversion Hl as [|? ? Hsl Hal]; subst.
      inversion Hl' as [|? ? Hsl' Hal']; subst.
      assert (a = b) as ->.
      { assert (Ha : In a (b :: l'))
          by (eapply Permutation_in; [exact Hp|left; reflexivity]).
        assert (Hb : In b (a :: l))
          by (eapply Permutation_in; [apply Permutation_sym, Hp|left; reflexivity]).
        destruct Ha as [Ha|Ha]; [congruence|].
        destruct Hb as [Hb|Hb]; [congruence|].
        rewrite Forall_forall in Hal, Hal'.
        apply Hanti; [apply Hal, Hb | apply Hal', Ha]. }
      f_equal. apply IH; try assumption.
      eapply Permutation_cons_inv. exact Hp.
Qed.

Lemma filter_nil_iff {A : Type} (p : A -> bool) (l : list A) :
  filter p l = [] <-> forall x, In x l -> p x = false.
Proof.
  induction l as [|y l IH]; simpl; [tauto|].
  destruct (p y) eqn:Hy; split.
  - discriminate.
  - intros H. rewrite (H y) in Hy by auto. discriminate.
  - intros H x [<-|Hx]; [exact Hy|]. apply IH; assumption.
  - intros H. apply IH. auto.
Qed.

Lemma map_Some_inj {A : Type} (l l' : list A) :
  map Some l = map Some l' -> l = l'.
Proof.
  revert l'. induction l as [|x l IH]; intros [|y l']; simpl; try discriminate.
  - reflexivity.
  - intros [= -> H]. f_equal. apply IH, H.
Qed.

Lemma filter_map_comm {A B : Type} (g : A -> B) (p : B -> bool) (l : list A) :
  filter p (map g l) = map g (filter (fun x => p (g x)) l).
Proof.
  induction l as [|x l IH]; simpl; [reflexivity|].
  destruct (p (g x)); simpl; rewrite IH; reflexivity.
Qed.

(** ** The index sort of filteredStableSort *)

Section IndexSort.

Variable evts : list TraceEvent.

Lemma indexLe_antisym (a b : nat) :
  indexLe evts a b -> indexLe evts b a -> a = b.
Proof. unfold indexLe. lia. Qed.

Lemma indexLe_trans (a b c : nat) :
  indexLe evts a b -> indexLe evts b c -> indexLe evts a c.
Proof. unfold indexLe. lia. Qed.

Lemma indexLe_total (a b : nat) : indexLe evts a b \/ indexLe evts b a.
Proof. unfold indexLe. lia. Qed.

Lemma tsAt_inRange (i : nat) : inRange evts i -> tsAt evts i = Ok (tsOf evts i).
Proof.
  unfold inRange, tsAt, tsOf. intros H.
  destruct (nth_error evts i) eqn:E; [reflexivity|].
  apply nth_error_None in E. lia.
Qed.

(** On positions of the array the comparator does not throw, and its sign
    decides [indexLe]. *)
Lemma compareIndices_spec (a b : nat) :
  inRange evts a -> inRange evts b ->
  exists c, compareIndices evts a b = Ok c /\ (c <= 0 <-> indexLe evts a b).
Proof.
  intros Ha Hb. unfold compareIndices.
  rewrite (tsAt_inRange a Ha), (tsAt_inRange b Hb). simpl.
  eexists. split; [reflexivity|].
  unfold indexLe.
  destruct (Z.eqb_spec (tsOf evts a - tsOf evts b) 0); lia.
Qed.

Lemma insertIndex_spec (x : nat) (l : list nat) :
  inRange evts x -> Forall (inRange evts) l ->
  StronglySorted (indexLe evts) l ->
  exists r, insertIndex (compareIndices evts) x l = Ok r /\
            Permutation (x :: l) r /\ StronglySorted (indexLe evts) r.
Proof.
  intros Hx. induction l as [|y l IH]; intros Hr Hs.
  - exists [x]. repeat split; auto. repeat constructor.
  - inversion Hr as [|? ? Hy Hr']; subst.
    inversion Hs as [|? ? Hs' Hall]; subst.
    destruct (compareIndices_spec x y Hx Hy) as (c & Hc & Hsign).
    simpl. rewrite Hc. simpl.
    destruct (Z.leb_spec c 0) as [Hle|Hgt].
    + exists (x :: y :: l). repeat split; auto.
      constructor; [exact Hs|].
      apply Hsign in Hle. constructor; [exact Hle|].
      rewrite Forall_forall in *. intros z Hz.
      eapply indexLe_trans; [exact Hle|apply Hall, Hz].
    + destruct (IH Hr' Hs') as (r & Hins & Hperm & Hsr).
      rewrite Hins. simpl. exists (y :: r). repeat split.
      * eapply Permutation_trans; [apply perm_swap|]. constructor. exact Hperm.
      * constructor; [exact Hsr|].
        rewrite Forall_forall in *. intros z Hz.
        apply Permutation_sym in Hperm.
        apply (Permutation_in _ Hperm) in Hz. destruct Hz as [<-|Hz].
        -- destruct (indexLe_total y x) as [H|H]; [exact H|].
           apply Hsign in H. lia.
        -- apply Hall, Hz.
Qed.

Lemma sortIndices_spec (l : list nat) :
  Forall (inRange evts) l ->
  exists r, sortIndices (compareIndices evts) l = Ok r /\
            Permutation l r /\ StronglySorted (indexLe evts) r.
Proof.
  induction l as [|x l IH]; intros Hr.
  - exists []. repeat split; constructor.
  - inversion Hr as [|? ? Hx Hr']; subst.
    destruct (IH Hr') as (s & Hs & Hperm & Hsorted).
    simpl. rewrite Hs. simpl.
    assert (Hrs : Forall (inRange evts) s).
    { rewrite Forall_forall in *. intros z Hz. apply Hr'.
      eapply Permutation_in; [apply Permutation_sym, Hperm|exact Hz]. }
    destruct (insertIndex_spec x s Hx Hrs Hsorted) as (r & Hins & Hp & Hsr).
    exists r. repeat split; auto.
    eapply Permutation_trans; [|exact Hp]. constructor. exact Hperm.
Qed.

(** The order leaves the sorting algorithm no choice: the array that
    [indices.sort] returns is the only arrangement of the positions that is
    sorted by the comparator. *)
Lemma sorted_indices_unique (l r r' : list nat) :
  Permutation l r -> StronglySorted (indexLe evts) r ->
  Permutation l r' -> StronglySorted (indexLe evts) r' ->
  r = r'.
Proof.
  intros Hp Hs Hp' Hs'.
  apply (StronglySorted_unique (indexLe evts) indexLe_antisym); auto.
  eapply Permutation_trans; [apply Permutation_sym, Hp|exact Hp'].
Qed.

Lemma materialize_spec (l : list nat) :
  Forall (inRange evts) l ->
  exists out, materialize evts l = Ok out /\
              map (nth_error evts) l = map Some out.
Proof.
  induction l as [|i l IH]; intros Hr.
  - exists []. split; reflexivity.
  - inversion Hr as [|? ? Hi Hr']; subst.
    destruct (IH Hr') as (out & Hm & Hmap).
    simpl. destruct (nth_error evts i) as [e|] eqn:E.
    + rewrite Hm. simpl. exists (e :: out). split; [reflexivity|].
      rewrite Hmap. reflexivity.
    + apply nth_error_None in E. unfold inRange in Hi. lia.
Qed.

End IndexSort.

(** The first loop. *)

Lemma keptIndices_bounds (f : TraceEvent -> bool) (evts : list TraceEvent) (n : nat) :
  Forall (fun i => (n <= i < n + List.length evts)%nat) (keptIndices f evts n).
Proof.
  revert n. induction evts as [|e evts IH]; intros n; simpl; [constructor|].
  assert (H : Forall (fun i => (n <= i < n + S (List.length evts))%nat)
                     (keptIndices f evts (S n))).
  { eapply Forall_impl; [|apply IH]. simpl. intros i Hi. lia. }
  destruct (f e); [constructor; [lia|]|]; exact H.
Qed.

Lemma keptIndices_inRange (f : TraceEvent -> bool) (evts : list TraceEvent) :
  Forall (inRange evts) (keptIndices f evts 0).
Proof.
  eapply Forall_impl; [|apply keptIndices_bounds]. unfold inRange. simpl. lia.
Qed.

Lemma keptIndices_increasing (f : TraceEvent -> bool) (evts : list TraceEvent) (n : nat) :
  StronglySorted lt (keptIndices f evts n).
Proof.
  revert n. induction evts as [|e evts IH]; intros n; simpl; [constructor|].
  destruct (f e); [|apply IH].
  constructor; [apply IH|].
  eapply Forall_impl; [|apply keptIndices_bounds]. simpl. lia.
Qed.

Lemma keptIndices_lookup (f : TraceEvent -> bool) (pre evts : list TraceEvent) :
  map (nth_error (pre ++ evts)) (keptIndices f evts (List.length pre))
  = map Some (filter f evts).
Proof.
  revert pre. induction evts as [|e evts IH]; intros pre; simpl; [reflexivity|].
  assert (H : map (nth_error (pre ++ e :: evts))
                  (keptIndices f evts (S (List.length pre)))
              = map Some (filter f evts)).
  { specialize (IH (pre ++ [e])). rewrite <- app_assoc in IH. simpl in IH.
    rewrite length_app in IH. simpl in IH. rewrite Nat.add_1_r in IH. exact IH. }
  destruct (f e); simpl; [|exact H].
  rewrite H. f_equal. rewrite nth_error_app2 by lia.
  rewrite Nat.sub_diag. reflexivity.
Qed.

(** ** filteredStableSort returns the stable chronological arrangement *)

Section Materialized.

Variable evts : list TraceEvent.

Lemma hasTime_tsOf (t : Z) (i : nat) : hasTime evts t i = true -> tsOf evts i = t.
Proof.
  unfold hasTime, tsOf. destruct (nth_error evts i); [|discriminate].
  apply Z.eqb_eq.
Qed.

Lemma atTime_lookup (t : Z) (l : list nat) (out : list TraceEvent) :
  map (nth_error evts) l = map Some out ->
  map (nth_error evts) (filter (hasTime evts t) l) = map Some (atTime t out).
Proof.
  intros H. unfold atTime.
  rewrite <- (filter_map_comm (nth_error evts)
                (fun o => match o with Some e => ts e =? t | None => false end)).
  rewrite H, filter_map_comm. reflexivity.
Qed.

Lemma lookup_Forall_tsLe (i : nat) (e : TraceEvent) (l : list nat)
    (out : list TraceEvent) :
  nth_error evts i = Some e ->
  map (nth_error evts) l = map Some out ->
  Forall (indexLe evts i) l -> Forall (tsLe e) out.
Proof.
  intros Hi. revert out. induction l as [|j l IH]; intros [|e' out] Hmap Hall;
    try discriminate; [constructor|].
  simpl in Hmap. injection Hmap as Hj Hmap.
  inversion Hall as [|? ? Hij Hall']; subst.
  constructor; [|apply IH; assumption].
  unfold indexLe, tsOf in Hij. rewrite Hi, Hj in Hij. unfold tsLe. lia.
Qed.

Lemma lookup_chronological (l : list nat) (out : list TraceEvent) :
  map (nth_error evts) l = map Some out ->
  StronglySorted (indexLe evts) l -> chronological out.
Proof.
  revert out. induction l as [|i l IH]; intros [|e out] Hmap Hs;
    try discriminate; [constructor|].
  simpl in Hmap. injection Hmap as Hi Hmap.
  inversion Hs as [|? ? Hs' Hall]; subst.
  constructor; [apply IH; assumption|].
  eapply lookup_Forall_tsLe; eassumption.
Qed.

Lemma increasing_at_one_time (t : Z) (l : list nat) :
  StronglySorted lt l -> Forall (fun i => tsOf evts i = t) l ->
  StronglySorted (indexLe evts) l.
Proof.
  induction 1 as [|i l Hs IH Hall]; intros Ht; [constructor|].
  inversion Ht as [|? ? Hi Ht']; subst.
  constructor; [apply IH, Ht'|].
  rewrite Forall_forall in *. intros j Hj.
  right. split; [rewrite (Ht' j Hj); reflexivity|].
  apply Nat.lt_le_incl, Hall, Hj.
Qed.

Lemma filter_hasTime_sorted (t : Z) (l : list nat) :
  StronglySorted lt l ->
  StronglySorted (indexLe evts) (filter (hasTime evts t) l).
Proof.
  intros Hs. apply (increasing_at_one_time t).
  - apply StronglySorted_filter, Hs.
  - rewrite Forall_forall. intros i Hi. apply filter_In in Hi.
    apply hasTime_tsOf, Hi.
Qed.

(** Sorting the positions by (timestamp, position) keeps, at every
    timestamp, the positions in increasing order. *)
Lemma sorted_indices_stable (t : Z) (l r : list nat) :
  StronglySorted lt l -> Permutation l r ->
  StronglySorted (indexLe evts) r ->
  filter (hasTime evts t) r = filter (hasTime evts t) l.
Proof.
  intros Hl Hp Hr.
  apply (StronglySorted_unique (indexLe evts) (indexLe_antisym evts)).
  - apply StronglySorted_filter, Hr.
  - apply filter_hasTime_sorted, Hl.
  - apply Permutation_filter, Permutation_sym, Hp.
Qed.

End Materialized.

Lemma filteredStableSort_stable (evts : list TraceEvent) (f : TraceEvent -> bool) :
  exists out, filteredStableSort evts f = Ok out /\
              stablySorted (filter f evts) out.
Proof.
  unfold filteredStableSort.
  pose proof (keptIndices_inRange f evts) as Hrange.
  pose proof (keptIndices_lookup f [] evts) as Hlook. simpl in Hlook.
  destruct (sortIndices_spec evts _ Hrange) as (r & Hsort & Hperm & Hsorted).
  assert (Hr : Forall (inRange evts) r).
  { rewrite Forall_forall in *. intros i Hi. apply Hrange.
    eapply Permutation_in; [apply Permutation_sym, Hperm|exact Hi]. }
  destruct (materialize_spec evts r Hr) as (out & Hmat & Hmap).
  exists out. simpl. rewrite Hsort. simpl. split; [exact Hmat|].
  repeat split.
  - pose proof (Permutation_map (nth_error evts) Hperm) as Hpm.
    rewrite Hlook, Hmap in Hpm.
    apply Permutation_sym, Permutation_map_inv in Hpm.
    destruct Hpm as (l3 & Heq & Hp3).
    apply map_Some_inj in Heq. subst l3. exact Hp3.
  - eapply lookup_chronological; eassumption.
  - intros t. apply map_Some_inj.
    rewrite <- (atTime_lookup evts t r out Hmap).
    rewrite <- (atTime_lookup evts t _ _ Hlook).
    f_equal. apply sorted_indices_stable; auto.
    apply keptIndices_increasing.
Qed.

(** ** The outcomes of compute_ *)

Lemma keyEvents_exist (trace : Trace) :
  exists keyEvents, filteredStableSort (traceEvents trace) isKeyEvent = Ok keyEvents.
Proof.
  destruct (filteredStableSort_stable (traceEvents trace) isKeyEvent) as (k & Hk & _).
  exists k. exact Hk.
Qed.

Lemma pop_In {A : Type} (l : list A) (x : A) : pop l = Some x -> In x l.
Proof.
  intros H. apply pop_Some in H. destruct H as [pre ->].
  apply in_or_app. right. left. reflexivity.
Qed.

(** An event of the frame is an event of the trace. *)
Lemma frameEvent_in_trace (evts keyEvents : list TraceEvent) (frameId : string)
    (e : TraceEvent) :
  filteredStableSort evts isKeyEvent = Ok keyEvents ->
  In e (frameEventsOf frameId keyEvents) -> In e evts.
Proof.
  intros Hk He.
  destruct (filteredStableSort_stable evts isKeyEvent) as (k & Hk' & Hperm & _).
  rewrite Hk in Hk'. injection Hk' as <-.
  apply filter_In in He. destruct He as [He _].
  apply Permutation_sym in Hperm.
  apply (Permutation_in _ Hperm) in He. apply filter_In in He. apply He.
Qed.

Section Outcomes.

Variable findTracingStartedEvt : FrameResolver.
Variable trace : Trace.
Variable keyEvents : list TraceEvent.
Hypothesis HkeyEvents :
  filteredStableSort (traceEvents trace) isKeyEvent = Ok keyEvents.

Lemma compute_resolution_failure :
  findTracingStartedEvt keyEvents = None ->
  compute_ findTracingStartedEvt trace = Throw FrameResolutionFailure.
Proof.
  intros Hf. unfold compute_. rewrite HkeyEvents. simpl.
  unfold resolveFrame. rewrite Hf. reflexivity.
Qed.

Variable startedInPageEvt : TraceEvent.
Variable frameId : string.
Hypothesis Hresolved : findTracingStartedEvt keyEvents = Some (startedInPageEvt, frameId).

Lemma compute_no_navstart :
  pop (filter isNavigationStartOfInterest (frameEventsOf frameId keyEvents)) = None ->
  compute_ findTracingStartedEvt trace = Throw NO_NAVSTART.
Proof.
  intros Hn. unfold compute_. rewrite HkeyEvents. simpl.
  unfold resolveFrame. rewrite Hresolved. simpl.
  unfold frameEventsOf in Hn. rewrite Hn. reflexivity.
Qed.

Variable navigationStart : TraceEvent.
Hypothesis Hnav :
  pop (filter isNavigationStartOfInterest (frameEventsOf frameId keyEvents))
  = Some navigationStart.

Lemma compute_no_fcp :
  find (markerAfter "firstContentfulPaint" navigationStart)
       (frameEventsOf frameId keyEvents) = None ->
  compute_ findTracingStartedEvt trace = Throw NO_FCP.
Proof.
  intros Hc. unfold compute_. rewrite HkeyEvents. simpl.
  unfold resolveFrame. rewrite Hresolved. simpl.
  unfold frameEventsOf in Hnav, Hc. rewrite Hnav, Hc. reflexivity.
Qed.

(** Once a navigation start is found the trace has an event, so the
    reduction over the trace has a value. *)
Lemma trace_nonempty : traceEvents trace <> [].
Proof.
  intros Hempty.
  assert (H : In navigationStart (traceEvents trace)).
  { eapply frameEvent_in_trace; [exact HkeyEvents|].
    apply pop_In in Hnav. apply filter_In in Hnav. apply Hnav. }
  rewrite Hempty in H. exact H.
Qed.

Lemma reduceMaxTs_defined :
  exists traceEnd, reduceMaxTs (traceEvents trace) = Ok traceEnd.
Proof.
  pose proof trace_nonempty as Hne. unfold reduceMaxTs.
  destruct (traceEvents trace); [congruence|]. eexists. reflexivity.
Qed.

Lemma compute_success (firstContentfulPaint : TraceEvent) :
  find (markerAfter "firstContentfulPaint" navigationStart)
       (frameEventsOf frameId keyEvents) = Some firstContentfulPaint ->
  exists processEvents traceEnd,
    filteredStableSort (traceEvents trace) (fun e => pid e =? pid startedInPageEvt)
    = Ok processEvents /\
    reduceMaxTs (traceEvents trace) = Ok traceEnd /\
    compute_ findTracingStartedEvt trace
    = Ok (artifact startedInPageEvt navigationStart firstContentfulPaint
            (frameEventsOf frameId keyEvents) processEvents traceEnd).
Proof.
  intros Hc.
  destruct (filteredStableSort_stable (traceEvents trace)
              (fun e => pid e =? pid startedInPageEvt)) as (processEvents & Hp & _).
  destruct reduceMaxTs_defined as (traceEnd & Hend).
  exists processEvents, traceEnd. split; [exact Hp|]. split; [exact Hend|].
  unfold compute_. rewrite HkeyEvents. simpl.
  unfold resolveFrame. rewrite Hresolved. simpl.
  unfold frameEventsOf in *. rewrite Hnav, Hc.
  unfold artifact.
  destruct (resolveFirstMeaningfulPaint (filter (inFrame frameId) keyEvents)
              navigationStart) as [firstMeaningfulPaint fellBack].
  rewrite Hp. simpl. rewrite Hend. reflexivity.
Qed.

End Outcomes.

(** What a returned artifact was computed from. *)
Lemma compute_Ok_inv (findTracingStartedEvt : FrameResolver) (trace : Trace)
    (r : TraceOfTab) :
  compute_ findTracingStartedEvt trace = Ok r ->
  exists keyEvents startedInPageEvt frameId navigationStart firstContentfulPaint
         processEvents traceEnd,
    filteredStableSort (traceEvents trace) isKeyEvent = Ok keyEvents /\
    findTracingStartedEvt keyEvents = Some (startedInPageEvt, frameId) /\
    pop (filter isNavigationStartOfInterest (frameEventsOf frameId keyEvents))
    = Some navigationStart /\
    find (markerAfter "firstContentfulPaint" navigationStart)
         (frameEventsOf frameId keyEvents) = Some firstContentfulPaint /\
    filteredStableSort (traceEvents trace) (fun e => pid e =? pid startedInPageEvt)
    = Ok processEvents /\
    reduceMaxTs (traceEvents trace) = Ok traceEnd /\
    r = artifact startedInPageEvt navigationStart firstContentfulPaint
          (frameEventsOf frameId keyEvents) processEvents traceEnd.
Proof.
  intros Hr.
  destruct (keyEvents_exist trace) as (keyEvents & Hk).
  destruct (findTracingStartedEvt keyEvents) as [[startedInPageEvt frameId]|] eqn:Hf.
  2: { rewrite (compute_resolution_failure _ _ _ Hk Hf) in Hr. discriminate. }
  destruct (pop (filter isNavigationStartOfInterest (frameEventsOf frameId keyEvents)))
    as [navigationStart|] eqn:Hn.
  2: { rewrite (compute_no_navstart _ _ _ Hk _ _ Hf Hn) in Hr. discriminate. }
  destruct (find (markerAfter "firstContentfulPaint" navigationStart)
                 (frameEventsOf frameId keyEvents)) as [firstContentfulPaint|] eqn:Hc.
  2: { rewrite (compute_no_fcp _ _ _ Hk _ _ Hf _ Hn Hc) in Hr. discriminate. }
  destruct (compute_success _ _ _ Hk _ _ Hf _ Hn _ Hc)
    as (processEvents & traceEnd & Hp & Hend & Hok).
  rewrite Hok in Hr. injection Hr as <-.
  exists keyEvents, startedInPageEvt, frameId, navigationStart, firstContentfulPaint,
    processEvents, traceEnd.
  repeat split; assumption.
Qed.

(** Whatever the frame resolver does, [compute_] raises no TypeError: the
    index sort stays inside the array and the reduction is only reached with
    a non-empty trace. *)
Lemma compute_never_TypeError (findTracingStartedEvt : FrameResolver)
    (trace : Trace) :
  compute_ findTracingStartedEvt trace <> Throw TypeError.
Proof.
  destruct (keyEvents_exist trace) as (keyEvents & Hk).
  destruct (findTracingStartedEvt keyEvents) as [[start frameId]|] eqn:Hf.
  2: { rewrite (compute_resolution_failure _ _ _ Hk Hf). discriminate. }
  destruct (pop (filter isNavigationStartOfInterest (frameEventsOf frameId keyEvents)))
    as [nav|] eqn:Hn.
  2: { rewrite (compute_no_navstart _ _ _ Hk _ _ Hf Hn). discriminate. }
  destruct (find (markerAfter "firstContentfulPaint" nav)
                 (frameEventsOf frameId keyEvents)) as [fcp|] eqn:Hc.
  2: { rewrite (compute_no_fcp _ _ _ Hk _ _ Hf _ Hn Hc). discriminate. }
  destruct (compute_success _ _ _ Hk _ _ Hf _ Hn _ Hc)
    as (procs & traceEnd & _ & _ & ->).
  discriminate.
Qed.

(** ** Stable filter-sort *)

(** C7.  For every event sequence and predicate, filteredStableSort returns
    a sequence that holds exactly the events satisfying the predicate (each
    as often as the input does), in ascending timestamp order, and at every
    timestamp the retained events appear in the order they have in the
    input. *)
Theorem filteredStableSort_correct (evts : list TraceEvent) (f : TraceEvent -> bool) :
  exists sorted,
    filteredStableSort evts f = Ok sorted /\
    Permutation (filter f evts) sorted /\
    (forall e, In e sorted <-> In e evts /\ f e = true) /\
    StronglySorted (fun a b => ts a <= ts b) sorted /\
    (forall t, filter (fun e => ts e =? t) sorted
               = filter (fun e => ts e =? t) (filter f evts)).
Proof.
  destruct (filteredStableSort_stable evts f) as (sorted & Hs & Hperm & Hchron & Hstable).
  exists sorted.
  split; [exact Hs|]. split; [exact Hperm|].
  split; [|split; [exact Hchron|exact Hstable]].
  intros e. rewrite <- filter_In. split.
  - apply Permutation_in, Permutation_sym, Hperm.
  - apply Permutation_in, Hperm.
Qed.

(** Three slices of the sample trace share timestamp 1200; they come out in
    capture order (durations 50, 70, 20), after the earlier events. *)
Example filteredStableSort_keeps_capture_order :
  option_map (map (fun e => (ts e, dur e)))
    (match filteredStableSort (traceEvents Samples.plain)
             (fun e => String.eqb (name e) "RunTask") with
     | Ok sorted => Some sorted
     | Throw _ => None
     end)
  = Some [(1100, Some 10); (1200, Some 50); (1200, Some 70); (1200, Some 20)].
Proof. reflexivity. Qed.

(** ** Process and main-thread events *)

Lemma filter_filter_andb {A : Type} (p q : A -> bool) (l : list A) :
  filter q (filter p l) = filter (fun x => p x && q x) l.
Proof.
  induction l as [|x l IH]; simpl; [reflexivity|].
  destruct (p x); simpl; [destruct (q x)|]; rewrite IH; reflexivity.
Qed.

Lemma filter_comm {A : Type} (p q : A -> bool) (l : list A) :
  filter q (filter p l) = filter p (filter q l).
Proof.
  rewrite !filter_filter_andb. apply filter_ext. intros x. apply andb_comm.
Qed.

(** Filtering a stable chronological arrangement gives the stable
    chronological arrangement of the filtered input. *)
Lemma stablySorted_filter (p : TraceEvent -> bool) (l out : list TraceEvent) :
  stablySorted l out -> stablySorted (filter p l) (filter p out).
Proof.
  intros (Hperm & Hchron & Hstable). repeat split.
  - apply Permutation_filter, Hperm.
  - apply StronglySorted_filter, Hchron.
  - intros t. unfold atTime in *.
    rewrite (filter_comm p), Hstable, (filter_comm p). reflexivity.
Qed.

(** C8.  In a returned artifact, processEvents holds exactly the events of
    the whole trace whose pid is that of the start event the frame resolver
    returned; mainThreadEvents holds exactly the events of processEvents
    whose tid is also the start event's, so it is a subset of processEvents;
    every event of processEvents has the tracked pid. *)
Theorem process_scoping (findTracingStartedEvt : FrameResolver) (trace : Trace)
    (r : TraceOfTab) :
  compute_ findTracingStartedEvt trace = Ok r ->
  (exists keyEvents frameId,
      filteredStableSort (traceEvents trace) isKeyEvent = Ok keyEvents /\
      findTracingStartedEvt keyEvents = Some (startedInPageEvt r, frameId)) /\
  Permutation
    (filter (fun e => pid e =? pid (startedInPageEvt r)) (traceEvents trace))
    (processEvents r) /\
  (forall e, In e (processEvents r) <->
             In e (traceEvents trace) /\ pid e = pid (startedInPageEvt r)) /\
  mainThreadEvents r
  = filter (fun e => tid e =? tid (startedInPageEvt r)) (processEvents r) /\
  (forall e, In e (mainThreadEvents r) <->
             In e (processEvents r) /\ tid e = tid (startedInPageEvt r)) /\
  incl (mainThreadEvents r) (processEvents r) /\
  Forall (fun e => pid e = pid (startedInPageEvt r)) (processEvents r).
Proof.
  intros Hr.
  destruct (compute_Ok_inv _ _ _ Hr)
    as (keyEvents & start & frameId & nav & fcp & procs & traceEnd
        & Hk & Hf & _ & _ & Hp & _ & ->).
  simpl.
  destruct (filteredStableSort_stable (traceEvents trace)
              (fun e => pid e =? pid start)) as (procs' & Hp' & Hperm & _).
  rewrite Hp in Hp'. injection Hp' as <-.
  assert (Hin : forall e, In e procs <->
                          In e (traceEvents trace) /\ pid e = pid start).
  { intros e. split.
    - intros He. apply Permutation_sym in Hperm.
      apply (Permutation_in _ Hperm) in He. apply filter_In in He.
      destruct He as [He Hpid]. split; [exact He|]. apply Z.eqb_eq, Hpid.
    - intros [He Hpid]. apply (Permutation_in _ Hperm). apply filter_In.
      split; [exact He|]. apply Z.eqb_eq, Hpid. }
  split; [exists keyEvents, frameId; split; assumption|].
  split; [exact Hperm|]. split; [exact Hin|]. split; [reflexivity|].
  split; [|split].
  - intros e. rewrite filter_In, Z.eqb_eq. reflexivity.
  - intros e He. apply filter_In in He. apply He.
  - apply Forall_forall. intros e He. apply Hin in He. apply He.
Qed.

(** C10.  In a returned artifact, mainThreadEvents is the stable
    chronological arrangement of the events of the trace that have the start
    event's pid and tid: ascending timestamps, and at every timestamp the
    order the events have in the input trace. *)
Theorem mainThreadEvents_stablySorted (findTracingStartedEvt : FrameResolver)
    (trace : Trace) (r : TraceOfTab) :
  compute_ findTracingStartedEvt trace = Ok r ->
  stablySorted
    (filter (fun e => (pid e =? pid (startedInPageEvt r)) &&
                      (tid e =? tid (startedInPageEvt r)))
            (traceEvents trace))
    (mainThreadEvents r).
Proof.
  intros Hr.
  destruct (compute_Ok_inv _ _ _ Hr)
    as (keyEvents & start & frameId & nav & fcp & procs & traceEnd
        & _ & _ & _ & _ & Hp & _ & ->).
  simpl.
  destruct (filteredStableSort_stable (traceEvents trace)
              (fun e => pid e =? pid start)) as (procs' & Hp' & Hstable).
  rewrite Hp in Hp'. injection Hp' as <-.
  rewrite <- filter_filter_andb.
  apply stablySorted_filter, Hstable.
Qed.

Lemma mainThreadEvents_stablySorted_witness :
  exists r, compute_ Samples.resolver Samples.plain = Ok r /\
    stablySorted
      (filter (fun e => (pid e =? pid (startedInPageEvt r)) &&
                        (tid e =? tid (startedInPageEvt r)))
              (traceEvents Samples.plain))
      (mainThreadEvents r).
Proof.
  eexists. split.
  - vm_compute. reflexivity.
  - apply (mainThreadEvents_stablySorted Samples.resolver Samples.plain).
    vm_compute. reflexivity.
Defined.

Lemma process_scoping_witness :
  exists r, compute_ Samples.resolver Samples.plain = Ok r /\
    incl (mainThreadEvents r) (processEvents r) /\
    Forall (fun e => pid e = pid (startedInPageEvt r)) (processEvents r).
Proof.
  eexists. split.
  - vm_compute. reflexivity.
  - apply (process_scoping Samples.resolver Samples.plain).
    vm_compute. reflexivity.
Defined.

(** ** Timings *)

Lemma find_markerAfter_Some (m : string) (nav e : TraceEvent) (l : list TraceEvent) :
  find (markerAfter m nav) l = Some e ->
  In e l /\ name e = m /\ ts nav < ts e.
Proof.
  intros H. apply find_some in H. destruct H as [Hin Hm].
  unfold markerAfter in Hm. apply andb_true_iff in Hm. destruct Hm as [Hn Ht].
  apply String.eqb_eq in Hn. apply Z.gtb_lt in Ht. auto.
Qed.

Lemma find_markerAfter_None (m : string) (nav : TraceEvent) (l : list TraceEvent) :
  find (markerAfter m nav) l = None <->
  forall e, In e l -> ~ (name e = m /\ ts nav < ts e).
Proof.
  split.
  - intros H e He [Hn Ht].
    pose proof (find_none _ _ H e He) as Hf. unfold markerAfter in Hf.
    apply String.eqb_eq in Hn. apply Z.gtb_lt in Ht. rewrite Hn, Ht in Hf.
    discriminate.
  - intros H. destruct (find (markerAfter m nav) l) as [e|] eqn:E; [|reflexivity].
    apply find_markerAfter_Some in E. destruct E as (Hin & Hn & Ht).
    exfalso. apply (H e Hin). auto.
Qed.

Lemma toMilliseconds_pos (navTs t : Z) :
  navTs < t -> (0 < toMilliseconds navTs t)%Q.
Proof.
  intros H. unfold toMilliseconds, Qlt, Qdiv, Qmult, Qinv, inject_Z. simpl. lia.
Qed.

(** C6.  In a returned artifact timings.navigationStart is 0; the timing of
    every other marker is its timestamp minus the navigation-start
    timestamp, divided by 1000; a marker without a timestamp has no timing.
    With navigation start at 1000 and first contentful paint at 2500 the
    first-contentful-paint timing is 1.5. *)
Theorem timing_projection (findTracingStartedEvt : FrameResolver) (trace : Trace)
    (r : TraceOfTab) :
  compute_ findTracingStartedEvt trace = Ok r ->
  let t := timestamps r in
  let ms := toMilliseconds (TraceTimes.navigationStart t) in
  TraceTimes.navigationStart t = ts (navigationStartEvt r) /\
  TraceTimes.navigationStart (timings r) = 0%Q /\
  TraceTimes.firstContentfulPaint (timings r) = ms (TraceTimes.firstContentfulPaint t) /\
  TraceTimes.traceEnd (timings r) = ms (TraceTimes.traceEnd t) /\
  TraceTimes.firstPaint (timings r) = option_map ms (TraceTimes.firstPaint t) /\
  TraceTimes.firstMeaningfulPaint (timings r)
  = option_map ms (TraceTimes.firstMeaningfulPaint t) /\
  TraceTimes.load (timings r) = option_map ms (TraceTimes.load t) /\
  TraceTimes.domContentLoaded (timings r)
  = option_map ms (TraceTimes.domContentLoaded t) /\
  (TraceTimes.navigationStart t = 1000 ->
   TraceTimes.firstContentfulPaint t = 2500 ->
   (TraceTimes.firstContentfulPaint (timings r) == 1.5)%Q).
Proof.
  intros Hr.
  destruct (compute_Ok_inv _ _ _ Hr)
    as (keyEvents & start & frameId & nav & fcp & procs & traceEnd
        & _ & _ & _ & _ & _ & _ & ->).
  simpl. unfold getTiming, toMilliseconds, maybeGetTiming.
  repeat (split; [first [reflexivity | destruct (getTimestamp _); reflexivity]|]).
  intros -> ->. reflexivity.
Qed.

Lemma timing_projection_witness :
  exists r, compute_ Samples.resolver Samples.plain = Ok r /\
    TraceTimes.navigationStart (timings r) = 0%Q /\
    (TraceTimes.firstContentfulPaint (timings r) == 1.5)%Q /\
    TraceTimes.firstPaint (timings r) = None.
Proof.
  eexists. split.
  - vm_compute. reflexivity.
  - pose proof (timing_projection Samples.resolver Samples.plain _ eq_refl)
      as (_ & H0 & _ & _ & Hfp & _ & _ & _ & H15).
    split; [exact H0|]. split; [|exact Hfp].
    apply H15; reflexivity.
Defined.

(** ** Order of the paint timings *)

(** C1, as the design document states it, fails: the first meaningful paint
    can be timed before the first contentful paint, both when it is found
    directly and when it comes from the candidate fallback. *)
Lemma fcp_le_fmp_counterexample :
  (exists r fmp,
      compute_ Samples.resolver Samples.meaningfulFirst = Ok r /\
      fmpFellBack r = false /\
      TraceTimes.firstMeaningfulPaint (timings r) = Some fmp /\
      ~ (TraceTimes.firstContentfulPaint (timings r) <= fmp)%Q) /\
  (exists r fmp,
      compute_ Samples.resolver Samples.candidatesOnly = Ok r /\
      fmpFellBack r = true /\
      TraceTimes.firstMeaningfulPaint (timings r) = Some fmp /\
      ~ (TraceTimes.firstContentfulPaint (timings r) <= fmp)%Q).
Proof.
  split; eexists; eexists;
    (split; [vm_compute; reflexivity|]);
    (split; [reflexivity|]); (split; [reflexivity|]);
    vm_compute; intros H; apply H; reflexivity.
Qed.

(** C1, amended.  In a returned artifact the first contentful paint is timed
    strictly after navigation start (timing 0), and so is a first meaningful
    paint that was found directly (fmpFellBack false). *)
Theorem paints_after_navigationStart (findTracingStartedEvt : FrameResolver)
    (trace : Trace) (r : TraceOfTab) :
  compute_ findTracingStartedEvt trace = Ok r ->
  (TraceTimes.navigationStart (timings r)
   < TraceTimes.firstContentfulPaint (timings r))%Q /\
  (fmpFellBack r = false ->
   exists fmp, TraceTimes.firstMeaningfulPaint (timings r) = Some fmp /\
               (TraceTimes.navigationStart (timings r) < fmp)%Q).
Proof.
  intros Hr.
  destruct (compute_Ok_inv _ _ _ Hr)
    as (keyEvents & start & frameId & nav & fcp & procs & traceEnd
        & _ & _ & _ & Hfcp & _ & _ & ->).
  simpl. split.
  - apply find_markerAfter_Some in Hfcp. destruct Hfcp as (_ & _ & Hlt).
    apply toMilliseconds_pos, Hlt.
  - unfold resolveFirstMeaningfulPaint.
    destruct (find (markerAfter "firstMeaningfulPaint" nav)
                   (frameEventsOf frameId keyEvents)) as [fmp|] eqn:Hfmp;
      simpl; [|discriminate].
    intros _. eexists. split; [reflexivity|].
    apply find_markerAfter_Some in Hfmp. destruct Hfmp as (_ & _ & Hlt).
    apply toMilliseconds_pos, Hlt.
Qed.

Lemma paints_after_navigationStart_witness :
  exists r, compute_ Samples.resolver Samples.meaningfulFirst = Ok r /\
    (TraceTimes.navigationStart (timings r)
     < TraceTimes.firstContentfulPaint (timings r))%Q /\
    (fmpFellBack r = false ->
     exists fmp, TraceTimes.firstMeaningfulPaint (timings r) = Some fmp /\
                 (TraceTimes.navigationStart (timings r) < fmp)%Q).
Proof.
  eexists. split.
  - vm_compute. reflexivity.
  - apply (paints_after_navigationStart Samples.resolver Samples.meaningfulFirst).
    vm_compute. reflexivity.
Defined.

(** ** Trace end *)

Lemma reduceMaxTs_spec (evts : list TraceEvent) (traceEnd : TraceEvent) :
  reduceMaxTs evts = Ok traceEnd ->
  exists before after,
    evts = before ++ traceEnd :: after /\
    Forall (fun e => ts e <= ts traceEnd) before /\
    Forall (fun e => ts e < ts traceEnd) after.
Proof.
  destruct evts as [|first rest]; [discriminate|].
  simpl. intros [= <-].
  induction rest as [|x rest IH] using rev_ind.
  - exists [], []. simpl. repeat split; constructor.
  - destruct IH as (before & after & Heq & Hb & Ha).
    rewrite fold_left_app. simpl.
    set (m := fold_left (fun max evt => if ts max >? ts evt then max else evt)
                        rest first) in *.
    destruct (Z.gtb_spec (ts m) (ts x)) as [Hgt|Hle].
    + exists before, (after ++ [x]). split; [|split].
      * change (first :: rest ++ [x]) with ((first :: rest) ++ [x]).
        rewrite Heq, <- app_assoc. reflexivity.
      * exact Hb.
      * apply Forall_app. split; [exact Ha|]. constructor; [lia|constructor].
    + exists (first :: rest), []. split; [|split].
      * reflexivity.
      * rewrite Heq. apply Forall_app. split.
        -- eapply Forall_impl; [|exact Hb]. simpl. intros; lia.
        -- constructor; [exact Hle|].
           eapply Forall_impl; [|exact Ha]. simpl. intros; lia.
      * constructor.
Qed.

(** C2, as the design document states it, fails: a slice that starts before
    the last event and outlasts it does not move the trace end. *)
Lemma traceEnd_counterexample :
  exists r,
    compute_ Samples.resolver Samples.longSlice = Ok r /\
    TraceTimes.traceEnd (timestamps r) = 2000 /\
    specTraceEnd (traceEvents Samples.longSlice) = Some 6500 /\
    specTraceEnd (traceEvents Samples.longSlice)
    <> Some (TraceTimes.traceEnd (timestamps r)).
Proof.
  eexists. split; [vm_compute; reflexivity|].
  split; [reflexivity|]. split; [reflexivity|]. discriminate.
Qed.

(** C2, amended.  In a returned artifact the traceEnd timestamp is
    timestamp plus duration (0 when missing) of the event of the whole trace
    with the largest timestamp, the last such event in trace order. *)
Theorem traceEnd_is_end_of_latest_event (findTracingStartedEvt : FrameResolver)
    (trace : Trace) (r : TraceOfTab) :
  compute_ findTracingStartedEvt trace = Ok r ->
  exists before latest after,
    traceEvents trace = before ++ latest :: after /\
    Forall (fun e => ts e <= ts latest) before /\
    Forall (fun e => ts e < ts latest) after /\
    TraceTimes.traceEnd (timestamps r)
    = ts latest + match dur latest with Some d => d | None => 0 end.
Proof.
  intros Hr.
  destruct (compute_Ok_inv _ _ _ Hr)
    as (keyEvents & start & frameId & nav & fcp & procs & traceEnd
        & _ & _ & _ & _ & _ & Hend & ->).
  destruct (reduceMaxTs_spec _ _ Hend) as (before & after & Heq & Hb & Ha).
  exists before, traceEnd, after. repeat split; try assumption.
  simpl. unfold endOf. destruct (dur traceEnd) as [d|]; [|reflexivity].
  destruct (Z.eqb_spec d 0); lia.
Qed.

Lemma traceEnd_is_end_of_latest_event_witness :
  exists r, compute_ Samples.resolver Samples.longSlice = Ok r /\
  exists before latest after,
    traceEvents Samples.longSlice = before ++ latest :: after /\
    Forall (fun e => ts e <= ts latest) before /\
    Forall (fun e => ts e < ts latest) after /\
    TraceTimes.traceEnd (timestamps r)
    = ts latest + match dur latest with Some d => d | None => 0 end.
Proof.
  eexists. split.
  - vm_compute. reflexivity.
  - apply (traceEnd_is_end_of_latest_event Samples.resolver Samples.longSlice).
    vm_compute. reflexivity.
Defined.

(** ** Navigation start *)

(** [pop (filter p l)] is the last element of [l] that satisfies [p]. *)
Lemma pop_filter_last {A : Type} (p : A -> bool) (l : list A) (x : A) :
  pop (filter p l) = Some x <->
  exists before after,
    l = before ++ x :: after /\ p x = true /\
    Forall (fun y => p y = false) after.
Proof.
  split.
  - induction l as [|y l IH]; simpl; [discriminate|].
    destruct (pop (filter p l)) as [z|] eqn:Hrest.
    + intros H.
      assert (Hz : Some z = Some x).
      { rewrite <- Hrest. destruct (p y); [|exact H].
        simpl in H. destruct (filter p l); [discriminate|]. exact H. }
      destruct (IH Hz) as (before & after & -> & Hp & Hafter).
      exists (y :: before), after. auto.
    + apply pop_None in Hrest. rewrite Hrest.
      destruct (p y) eqn:Hy; [|discriminate].
      intros [= ->]. exists [], l. repeat split; auto.
      apply Forall_forall. intros z Hz.
      destruct (p z) eqn:Hpz; [|reflexivity].
      assert (In z (filter p l)) by (apply filter_In; auto).
      rewrite Hrest in *. contradiction.
  - intros (before & after & -> & Hp & Hafter).
    rewrite filter_app. simpl. rewrite Hp.
    assert (Hnil : filter p after = []).
    { induction Hafter as [|z after Hz _ IH]; simpl; [reflexivity|].
      rewrite Hz. exact IH. }
    rewrite Hnil. apply pop_app_last.
Qed.

Lemma isNavigationStartOfInterest_spec (event : TraceEvent) :
  isNavigationStartOfInterest event = true <->
  name event = "navigationStart"%string /\
  (data (args event) = None \/
   exists d, data (args event) = Some d /\
     (documentLoaderURL d = None \/
      documentLoaderURL d = Some EmptyString \/
      exists url, documentLoaderURL d = Some url /\
        (String.prefix "chrome:" url = true \/
         String.prefix "http:" url = true \/
         String.prefix "https:" url = true))).
Proof.
  unfold isNavigationStartOfInterest, ACCEPTABLE_NAVIGATION_URL_REGEX_test.
  rewrite andb_true_iff, String.eqb_eq.
  apply and_iff_compat_l.
  destruct (data (args event)) as [d|]; [|split; auto].
  destruct (documentLoaderURL d) as [[|c url]|] eqn:Hurl.
  - split; [intros _|reflexivity]. right. exists d. auto.
  - rewrite !orb_true_iff. split.
    + intros H. right. exists d. split; [reflexivity|].
      right. right. exists (String c url). split; [exact Hurl|tauto].
    + intros [H|(d' & [= <-] & H)]; [discriminate|].
      rewrite Hurl in H.
      destruct H as [H|[H|(url' & [= <-] & H)]]; try discriminate. tauto.
  - split; [intros _|reflexivity]. right. exists d. auto.
Qed.

(** C3.  The navigation-start event of a returned artifact is the last
    event of the frame events that is named navigationStart and whose
    document loader URL is missing, empty, or starts with chrome:, http: or
    https:; later navigationStart events of the frame that are not accepted
    do not displace it. *)
Theorem navigationStart_last_accepted (findTracingStartedEvt : FrameResolver)
    (trace : Trace) (keyEvents : list TraceEvent) (startedInPageEvt : TraceEvent)
    (frameId : string) (r : TraceOfTab) :
  filteredStableSort (traceEvents trace) isKeyEvent = Ok keyEvents ->
  findTracingStartedEvt keyEvents = Some (startedInPageEvt, frameId) ->
  compute_ findTracingStartedEvt trace = Ok r ->
  (exists before after,
      frameEventsOf frameId keyEvents = before ++ navigationStartEvt r :: after /\
      isNavigationStartOfInterest (navigationStartEvt r) = true /\
      Forall (fun e => isNavigationStartOfInterest e = false) after) /\
  (forall event,
      isNavigationStartOfInterest event = true <->
      name event = "navigationStart"%string /\
      (data (args event) = None \/
       exists d, data (args event) = Some d /\
         (documentLoaderURL d = None \/
          documentLoaderURL d = Some EmptyString \/
          exists url, documentLoaderURL d = Some url /\
            (String.prefix "chrome:" url = true \/
             String.prefix "http:" url = true \/
             String.prefix "https:" url = true)))).
Proof.
  intros Hk Hf Hr.
  destruct (compute_Ok_inv _ _ _ Hr)
    as (keyEvents' & start & frameId' & nav & fcp & procs & traceEnd
        & Hk' & Hf' & Hnav & _ & _ & _ & ->).
  rewrite Hk in Hk'. injection Hk' as <-.
  rewrite Hf in Hf'. injection Hf' as <- <-.
  split; [|apply isNavigationStartOfInterest_spec].
  simpl. apply pop_filter_last, Hnav.
Qed.

Lemma navigationStart_last_accepted_witness :
  exists r, compute_ Samples.resolver Samples.twoNavigations = Ok r /\
    navigationStartEvt r = Samples.navigation "https://example.com/" 1000 /\
    exists before after,
      frameEventsOf "F" [Samples.started;
                         Samples.navigation "https://example.com/" 1000;
                         Samples.navigation "about:blank" 3000;
                         Samples.marker "firstContentfulPaint" 4000]
      = before ++ navigationStartEvt r :: after /\
      isNavigationStartOfInterest (navigationStartEvt r) = true /\
      Forall (fun e => isNavigationStartOfInterest e = false) after.
Proof.
  eexists. split; [vm_compute; reflexivity|]. split; [reflexivity|].
  apply (navigationStart_last_accepted Samples.resolver Samples.twoNavigations
           _ Samples.started "F"); vm_compute; reflexivity.
Defined.

(** ** Fatal and non-fatal absences *)

Section Resolved.

Variable findTracingStartedEvt : FrameResolver.
Variable trace : Trace.
Variable keyEvents : list TraceEvent.
Variable startedInPageEvt : TraceEvent.
Variable frameId : string.

Hypothesis HkeyEvents :
  filteredStableSort (traceEvents trace) isKeyEvent = Ok keyEvents.
Hypothesis Hresolved :
  findTracingStartedEvt keyEvents = Some (startedInPageEvt, frameId).

Local Abbreviation frameEvents := (frameEventsOf frameId keyEvents).

(** C4.  With the frame resolved, compute_ throws NO_NAVSTART exactly when
    no frame event is a navigation start of interest; it throws NO_FCP
    exactly when a navigation start was found and no frame event named
    firstContentfulPaint has a timestamp strictly greater than it; in both
    cases no artifact is returned; in every other case, whatever other
    markers are missing, an artifact is returned. *)
Theorem fatal_errors :
  (compute_ findTracingStartedEvt trace = Throw NO_NAVSTART <->
   forall e, In e frameEvents -> isNavigationStartOfInterest e = false) /\
  (compute_ findTracingStartedEvt trace = Throw NO_FCP <->
   exists navigationStart,
     pop (filter isNavigationStartOfInterest frameEvents) = Some navigationStart /\
     forall e, In e frameEvents ->
               ~ (name e = "firstContentfulPaint"%string /\
                  ts navigationStart < ts e)) /\
  ((exists r, compute_ findTracingStartedEvt trace = Ok r) <->
   exists navigationStart firstContentfulPaint,
     pop (filter isNavigationStartOfInterest frameEvents) = Some navigationStart /\
     find (markerAfter "firstContentfulPaint" navigationStart) frameEvents
     = Some firstContentfulPaint) /\
  (forall x, compute_ findTracingStartedEvt trace = Throw x ->
             x = NO_NAVSTART \/ x = NO_FCP).
Proof.
  assert (Hnone : pop (filter isNavigationStartOfInterest frameEvents) = None <->
                  forall e, In e frameEvents ->
                            isNavigationStartOfInterest e = false).
  { rewrite pop_None. apply filter_nil_iff. }
  destruct (pop (filter isNavigationStartOfInterest frameEvents))
    as [nav|] eqn:Hnav.
  - assert (Hsome : ~ forall e, In e frameEvents ->
                                isNavigationStartOfInterest e = false).
    { intros H. apply Hnone in H. discriminate. }
    destruct (find (markerAfter "firstContentfulPaint" nav) frameEvents)
      as [fcp|] eqn:Hfcp.
    + destruct (compute_success _ _ _ HkeyEvents _ _ Hresolved _ Hnav _ Hfcp)
        as (procs & traceEnd & _ & _ & Hok).
      rewrite Hok. repeat split; try discriminate.
      * intros H. contradiction.
      * intros (nav' & [= <-] & Hno).
        apply find_markerAfter_None in Hno. congruence.
      * intros _. exists nav, fcp. auto.
      * intros _. eexists. reflexivity.
    + rewrite (compute_no_fcp _ _ _ HkeyEvents _ _ Hresolved _ Hnav Hfcp).
      repeat split; try discriminate.
      * intros H. contradiction.
      * intros _. exists nav. split; [reflexivity|].
        apply find_markerAfter_None, Hfcp.
      * intros (r & Hr). discriminate.
      * intros (nav' & fcp & [= <-] & Hfcp'). congruence.
      * intros x [= <-]. auto.
  - rewrite (compute_no_navstart _ _ _ HkeyEvents _ _ Hresolved Hnav).
    repeat split; try discriminate.
    + intros _. apply Hnone. reflexivity.
    + intros (nav & Hn & _). discriminate.
    + intros (r & Hr). discriminate.
    + intros (nav & fcp & Hn & _). discriminate.
    + intros x [= <-]. auto.
Qed.

(** C5.  With the frame resolved, a navigation start and a first contentful
    paint found, compute_ returns an artifact.  If no frame event named
    firstMeaningfulPaint has a timestamp after navigation start, its
    first-meaningful-paint event is the last frame event named
    firstMeaningfulPaintCandidate, wherever it lies in time, and fmpFellBack
    is true; without a candidate the marker is absent from the events, the
    timestamps and the timings, and fmpFellBack is still true.  If such a
    firstMeaningfulPaint exists, the first one is used and fmpFellBack is
    false. *)
Theorem firstMeaningfulPaint_fallback
    (navigationStart firstContentfulPaint : TraceEvent) :
  pop (filter isNavigationStartOfInterest frameEvents) = Some navigationStart ->
  find (markerAfter "firstContentfulPaint" navigationStart) frameEvents
  = Some firstContentfulPaint ->
  exists r,
    compute_ findTracingStartedEvt trace = Ok r /\
    ((forall e, In e frameEvents ->
                ~ (name e = "firstMeaningfulPaint"%string /\
                   ts navigationStart < ts e)) ->
     firstMeaningfulPaintEvt r = pop (filter isCandidate frameEvents) /\
     TraceTimes.firstMeaningfulPaint (timestamps r)
     = option_map ts (pop (filter isCandidate frameEvents)) /\
     fmpFellBack r = true /\
     ((forall e, In e frameEvents ->
                 name e <> "firstMeaningfulPaintCandidate"%string) ->
      firstMeaningfulPaintEvt r = None /\
      TraceTimes.firstMeaningfulPaint (timestamps r) = None /\
      TraceTimes.firstMeaningfulPaint (timings r) = None)) /\
    (forall e,
        find (markerAfter "firstMeaningfulPaint" navigationStart) frameEvents
        = Some e ->
        firstMeaningfulPaintEvt r = Some e /\ fmpFellBack r = false /\
        TraceTimes.firstMeaningfulPaint (timestamps r) = Some (ts e)).
Proof.
  intros Hnav Hfcp.
  destruct (compute_success _ _ _ HkeyEvents _ _ Hresolved _ Hnav _ Hfcp)
    as (procs & traceEnd & _ & _ & Hok).
  eexists. split; [exact Hok|]. simpl.
  unfold resolveFirstMeaningfulPaint.
  destruct (find (markerAfter "firstMeaningfulPaint" navigationStart) frameEvents)
    as [fmp|] eqn:Hfmp; simpl.
  - split.
    + intros Hno. apply find_markerAfter_None in Hno. congruence.
    + intros e [= <-]. auto.
  - split; [|discriminate].
    intros _. split; [reflexivity|]. split; [reflexivity|]. split; [reflexivity|].
    intros Hnocand.
    assert (Hnil : filter isCandidate frameEvents = []).
    { apply filter_nil_iff. intros c Hin.
      destruct (isCandidate c) eqn:Hc; [|reflexivity].
      unfold isCandidate in Hc. apply String.eqb_eq in Hc.
      exfalso. apply (Hnocand c Hin Hc). }
    rewrite Hnil. simpl. auto.
Qed.

End Resolved.

Lemma fatal_errors_witness :
  compute_ Samples.resolver Samples.rejectedNavigation = Throw NO_NAVSTART /\
  forall e,
    In e (frameEventsOf "F" [Samples.started;
                             Samples.navigation "about:blank" 1000;
                             Samples.marker "firstContentfulPaint" 2000]) ->
    isNavigationStartOfInterest e = false.
Proof.
  split; [reflexivity|].
  apply (fatal_errors Samples.resolver Samples.rejectedNavigation
           _ Samples.started "F"); reflexivity.
Defined.

Lemma firstMeaningfulPaint_fallback_witness :
  exists r,
    compute_ Samples.resolver Samples.candidatesOnly = Ok r /\
    firstMeaningfulPaintEvt r
    = Some (Samples.marker "firstMeaningfulPaintCandidate" 600) /\
    fmpFellBack r = true.
Proof.
  destruct (firstMeaningfulPaint_fallback Samples.resolver Samples.candidatesOnly
              [Samples.started;
               Samples.marker "firstMeaningfulPaintCandidate" 300;
               Samples.marker "firstMeaningfulPaintCandidate" 600;
               Samples.marker "navigationStart" 1000;
               Samples.marker "firstContentfulPaint" 2000]
              Samples.started "F" eq_refl eq_refl
              (Samples.marker "navigationStart" 1000)
              (Samples.marker "firstContentfulPaint" 2000) eq_refl eq_refl)
    as (r & Hok & Hfallback & _).
  exists r. split; [exact Hok|].
  destruct Hfallback as (Hevt & _ & Hfell & _).
  - intros e He [Hname Hts]. vm_compute in He.
    repeat (destruct He as [<-|He]; [discriminate|]). exact He.
  - split; [exact Hevt|exact Hfell].
Defined.

(** ** The reduction over the trace *)

(** C9.  Once the frame is resolved and a navigation start is found, the
    trace has at least one event, so the reduction that picks the event of
    the largest timestamp has a value; compute_ never fails with the
    TypeError of a reduction over an empty array. *)
Theorem traceEnd_reduction_defined (findTracingStartedEvt : FrameResolver)
    (trace : Trace) (keyEvents : list TraceEvent) (startedInPageEvt : TraceEvent)
    (frameId : string) (navigationStart : TraceEvent) :
  filteredStableSort (traceEvents trace) isKeyEvent = Ok keyEvents ->
  findTracingStartedEvt keyEvents = Some (startedInPageEvt, frameId) ->
  pop (filter isNavigationStartOfInterest (frameEventsOf frameId keyEvents))
  = Some navigationStart ->
  traceEvents trace <> [] /\
  (exists traceEnd, reduceMaxTs (traceEvents trace) = Ok traceEnd /\
                    In traceEnd (traceEvents trace)) /\
  compute_ findTracingStartedEvt trace <> Throw TypeError.
Proof.
  intros Hk Hf Hnav.
  split; [exact (trace_nonempty _ _ Hk _ _ Hnav)|]. split.
  - destruct (reduceMaxTs_defined _ _ Hk _ _ Hnav) as (traceEnd & Hend).
    exists traceEnd. split; [exact Hend|].
    destruct (reduceMaxTs_spec _ _ Hend) as (before & after & -> & _).
    apply in_or_app. right. left. reflexivity.
  - apply compute_never_TypeError.
Qed.

Lemma traceEnd_reduction_defined_witness :
  traceEvents Samples.plain <> [] /\
  (exists traceEnd, reduceMaxTs (traceEvents Samples.plain) = Ok traceEnd /\
                    In traceEnd (traceEvents Samples.plain)) /\
  compute_ Samples.resolver Samples.plain <> Throw TypeError.
Proof.
  eapply (traceEnd_reduction_defined Samples.resolver Samples.plain
            _ Samples.started "F" (Samples.marker "navigationStart" 1000));
    vm_compute; reflexivity.
Defined.

(** * Further properties of the source *)

(** ** The comparator of filteredStableSort *)

(** X1.  On positions of the array the comparator of filteredStableSort is a
    consistent comparison function: it returns a number, swapping the
    arguments negates it, it is 0 only for one and the same position, and
    "at most 0" is transitive. *)
Theorem compareIndices_consistent (evts : list TraceEvent) (a b c : nat) :
  inRange evts a -> inRange evts b -> inRange evts c ->
  exists ab ba bc ac,
    compareIndices evts a b = Ok ab /\
    compareIndices evts b a = Ok ba /\
    compareIndices evts b c = Ok bc /\
    compareIndices evts a c = Ok ac /\
    ba = - ab /\
    (ab = 0 <-> a = b) /\
    (ab <= 0 -> bc <= 0 -> ac <= 0).
Proof.
  intros Ha Hb Hc. unfold compareIndices.
  rewrite (tsAt_inRange evts a Ha), (tsAt_inRange evts b Hb),
    (tsAt_inRange evts c Hc). simpl.
  do 4 eexists. repeat (split; [reflexivity|]).
  assert (Hab : a = b -> tsOf evts a = tsOf evts b) by (intros ->; reflexivity).
  destruct (Z.eqb_spec (tsOf evts a - tsOf evts b) 0),
    (Z.eqb_spec (tsOf evts b - tsOf evts a) 0),
    (Z.eqb_spec (tsOf evts b - tsOf evts c) 0),
    (Z.eqb_spec (tsOf evts a - tsOf evts c) 0); lia.
Qed.

Lemma compareIndices_consistent_witness :
  exists ab ba bc ac,
    compareIndices (traceEvents Samples.plain) 2 3 = Ok ab /\
    compareIndices (traceEvents Samples.plain) 3 2 = Ok ba /\
    compareIndices (traceEvents Samples.plain) 3 6 = Ok bc /\
    compareIndices (traceEvents Samples.plain) 2 6 = Ok ac /\
    ba = - ab /\
    (ab = 0 <-> 2%nat = 3%nat) /\
    (ab <= 0 -> bc <= 0 -> ac <= 0).
Proof.
  apply (compareIndices_consistent (traceEvents Samples.plain) 2 3 6);
    unfold inRange; simpl; lia.
Defined.

(** ** filteredStableSort does not depend on the sorting algorithm *)

Lemma sortedByComparator_indexLe (evts : list TraceEvent) (l : list nat) :
  Forall (inRange evts) l ->
  sortedByComparator (compareIndices evts) l ->
  StronglySorted (indexLe evts) l.
Proof.
  unfold sortedByComparator. intros Hr Hs.
  induction Hs as [|a l Hs IH Hall]; [constructor|].
  inversion Hr as [|? ? Ha Hr']; subst.
  constructor; [apply IH, Hr'|].
  rewrite Forall_forall in *. intros b Hb.
  destruct (Hall b Hb) as (c & Hc & Hle).
  destruct (compareIndices_spec evts a b Ha (Hr' b Hb)) as (c' & Hc' & Hsign).
  rewrite Hc in Hc'. injection Hc' as <-. apply Hsign, Hle.
Qed.

(** X2.  Whatever algorithm [indices.sort] runs: every arrangement of the
    kept positions that is sorted by the comparator materializes to the
    array filteredStableSort returns. *)
Theorem filteredStableSort_any_sort (evts : list TraceEvent)
    (f : TraceEvent -> bool) (indices : list nat) :
  Permutation (keptIndices f evts 0) indices ->
  sortedByComparator (compareIndices evts) indices ->
  materialize evts indices = filteredStableSort evts f.
Proof.
  intros Hperm Hsorted.
  pose proof (keptIndices_inRange f evts) as Hrange.
  assert (Hr : Forall (inRange evts) indices).
  { rewrite Forall_forall in *. intros i Hi. apply Hrange.
    eapply Permutation_in; [apply Permutation_sym, Hperm|exact Hi]. }
  destruct (sortIndices_spec evts _ Hrange) as (r & Hsort & Hperm' & Hsorted').
  assert (indices = r) as ->.
  { eapply sorted_indices_unique; try eassumption.
    apply sortedByComparator_indexLe; assumption. }
  unfold filteredStableSort. simpl. rewrite Hsort. reflexivity.
Qed.

Lemma filteredStableSort_any_sort_witness :
  materialize (traceEvents Samples.plain) [4; 2; 3; 6]%nat
  = filteredStableSort (traceEvents Samples.plain)
      (fun e => String.eqb (name e) "RunTask").
Proof.
  apply filteredStableSort_any_sort.
  - apply Permutation_sym.
    change [4; 2; 3; 6]%nat with ([4]%nat ++ [2; 3; 6]%nat).
    simpl keptIndices.
    apply (Permutation_cons_app [2; 3]%nat [6]%nat 4%nat).
    apply Permutation_refl.
  - unfold sortedByComparator.
    repeat (constructor; [|repeat (constructor;
                                   [eexists; split; [reflexivity|simpl; lia]|])]).
    all: constructor.
Defined.

(** ** filteredStableSort as the one stable chronological arrangement *)

Lemma atTime_cons_same (a : TraceEvent) (l : list TraceEvent) :
  atTime (ts a) (a :: l) = a :: atTime (ts a) l.
Proof. unfold atTime. simpl. rewrite Z.eqb_refl. reflexivity. Qed.

Lemma atTime_cons_other (t : Z) (a : TraceEvent) (l : list TraceEvent) :
  ts a <> t -> atTime t (a :: l) = atTime t l.
Proof.
  intros H. unfold atTime. simpl.
  destruct (Z.eqb_spec (ts a) t); [contradiction|reflexivity].
Qed.

Lemma atTime_In (t : Z) (e : TraceEvent) (l : list TraceEvent) :
  In e (atTime t l) <-> In e l /\ ts e = t.
Proof. unfold atTime. rewrite filter_In, Z.eqb_eq. reflexivity. Qed.

(** Two chronological lists with the same events at every timestamp, in the
    same order, are one list. *)
Lemma chronological_atTime_unique (o1 o2 : list TraceEvent) :
  chronological o1 -> chronological o2 ->
  (forall t, atTime t o1 = atTime t o2) -> o1 = o2.
Proof.
  revert o2. induction o1 as [|a l1 IH]; intros [|b l2] H1 H2 Hat.
  - reflexivity.
  - specialize (Hat (ts b)). rewrite atTime_cons_same in Hat. discriminate.
  - specialize (Hat (ts a)). rewrite atTime_cons_same in Hat. discriminate.
  - inversion H1 as [|? ? Hs1 Hall1]; subst.
    inversion H2 as [|? ? Hs2 Hall2]; subst.
    rewrite Forall_forall in Hall1, Hall2. unfold tsLe in Hall1, Hall2.
    assert (Hts : ts a = ts b).
    { destruct (Z.eq_dec (ts a) (ts b)) as [|Hne]; [assumption|].
      assert (Ha : In a l2).
      { pose proof (Hat (ts a)) as H.
        rewrite atTime_cons_same, atTime_cons_other in H by congruence.
        assert (Hin : In a (atTime (ts a) l2)) by (rewrite <- H; left; reflexivity).
        apply atTime_In in Hin. apply Hin. }
      assert (Hb : In b l1).
      { pose proof (Hat (ts b)) as H.
        rewrite atTime_cons_same, atTime_cons_other in H by congruence.
        assert (Hin : In b (atTime (ts b) l1)) by (rewrite H; left; reflexivity).
        apply atTime_In in Hin. apply Hin. }
      pose proof (Hall1 b Hb). pose proof (Hall2 a Ha). lia. }
    assert (a = b) as ->.
    { pose proof (Hat (ts a)) as H. rewrite atTime_cons_same in H.
      rewrite Hts, atTime_cons_same in H. congruence. }
    f_equal. apply IH; try assumption.
    intros t. specialize (Hat t).
    destruct (Z.eq_dec (ts b) t) as [<-|Hne].
    + rewrite !atTime_cons_same in Hat. congruence.
    + rewrite !atTime_cons_other in Hat by assumption. exact Hat.
Qed.

Lemma stablySorted_unique (l o1 o2 : list TraceEvent) :
  stablySorted l o1 -> stablySorted l o2 -> o1 = o2.
Proof.
  intros (_ & Hc1 & Hat1) (_ & Hc2 & Hat2).
  apply chronological_atTime_unique; try assumption.
  intros t. rewrite Hat1, Hat2. reflexivity.
Qed.

(** What filteredStableSort returns is fixed by [stablySorted]. *)
Lemma filteredStableSort_eq (evts out : list TraceEvent) (f : TraceEvent -> bool) :
  stablySorted (filter f evts) out -> filteredStableSort evts f = Ok out.
Proof.
  intros H.
  destruct (filteredStableSort_stable evts f) as (out' & Hout & Hstable).
  rewrite Hout. f_equal. eapply stablySorted_unique; eassumption.
Qed.

Lemma stablySorted_refl (l : list TraceEvent) :
  chronological l -> stablySorted l l.
Proof.
  intros H. split; [apply Permutation_refl|]. split; [exact H|reflexivity].
Qed.

(** X3.  On an array that is already in ascending timestamp order
    filteredStableSort only filters: the retained events keep their
    positions relative to each other. *)
Theorem filteredStableSort_chronological (evts : list TraceEvent)
    (f : TraceEvent -> bool) :
  chronological evts -> filteredStableSort evts f = Ok (filter f evts).
Proof.
  intros H. apply filteredStableSort_eq, stablySorted_refl.
  apply StronglySorted_filter, H.
Qed.

Lemma filteredStableSort_chronological_witness :
  filteredStableSort (traceEvents Samples.meaningfulFirst) isKeyEvent
  = Ok (filter isKeyEvent (traceEvents Samples.meaningfulFirst)).
Proof.
  apply filteredStableSort_chronological.
  unfold chronological.
  repeat (constructor; [|repeat (constructor; [unfold tsLe; simpl; lia|])]).
  all: constructor.
Defined.

Lemma filteredStableSort_filter_andb (evts out : list TraceEvent)
    (f g : TraceEvent -> bool) :
  filteredStableSort evts f = Ok out ->
  filteredStableSort evts (fun e => f e && g e) = Ok (filter g out).
Proof.
  intros Hout.
  destruct (filteredStableSort_stable evts f) as (out' & Hout' & Hstable).
  rewrite Hout in Hout'. injection Hout' as <-.
  apply filteredStableSort_eq. rewrite <- filter_filter_andb.
  apply stablySorted_filter, Hstable.
Qed.

(** X4.  Filtering the result of filteredStableSort by a second predicate
    gives what filteredStableSort returns for the conjunction of the two
    predicates. *)
Theorem filteredStableSort_then_filter (evts out : list TraceEvent)
    (f g : TraceEvent -> bool) :
  filteredStableSort evts f = Ok out ->
  filteredStableSort evts (fun e => f e && g e) = Ok (filter g out).
Proof. apply filteredStableSort_filter_andb. Qed.

Lemma filteredStableSort_then_filter_witness :
  exists out,
    filteredStableSort (traceEvents Samples.plain) isKeyEvent = Ok out /\
    filteredStableSort (traceEvents Samples.plain)
      (fun e => isKeyEvent e && inFrame "F" e)
    = Ok (filter (inFrame "F") out).
Proof.
  eexists. split.
  - vm_compute. reflexivity.
  - apply (filteredStableSort_then_filter (traceEvents Samples.plain)).
    vm_compute. reflexivity.
Defined.

(** X5.  Sorting a result of filteredStableSort again changes nothing: with
    any predicate the second call only filters. *)
Theorem filteredStableSort_again (evts out : list TraceEvent)
    (f g : TraceEvent -> bool) :
  filteredStableSort evts f = Ok out ->
  filteredStableSort out g = Ok (filter g out).
Proof.
  intros Hout.
  destruct (filteredStableSort_stable evts f) as (out' & Hout' & _ & Hchron & _).
  rewrite Hout in Hout'. injection Hout' as <-.
  apply filteredStableSort_eq, stablySorted_refl.
  apply StronglySorted_filter, Hchron.
Qed.

Lemma filteredStableSort_again_witness :
  exists out,
    filteredStableSort (traceEvents Samples.plain) isKeyEvent = Ok out /\
    filteredStableSort out (fun _ => true) = Ok (filter (fun _ => true) out).
Proof.
  eexists. split.
  - vm_compute. reflexivity.
  - apply (filteredStableSort_again (traceEvents Samples.plain) _ isKeyEvent).
    vm_compute. reflexivity.
Defined.

(** ** Capture order *)

Lemma chronological_distinct (l : list TraceEvent) :
  chronological l -> NoDup (map ts l) ->
  StronglySorted (fun a b => ts a < ts b) l.
Proof.
  induction 1 as [|a l Hs IH Hall]; intros Hnd; [constructor|].
  simpl in Hnd. inversion Hnd as [|? ? Hnotin Hnd']; subst.
  constructor; [apply IH, Hnd'|].
  rewrite Forall_forall in *. intros b Hb.
  pose proof (Hall b Hb) as Hle. unfold tsLe in Hle.
  assert (ts a <> ts b).
  { intros Heq. apply Hnotin. rewrite Heq. apply in_map, Hb. }
  lia.
Qed.

(** X6.  When the retained events have pairwise different timestamps, the
    result of filteredStableSort does not depend on the order in which the
    events were captured. *)
Theorem filteredStableSort_capture_order (evts evts' : list TraceEvent)
    (f : TraceEvent -> bool) :
  Permutation evts evts' ->
  NoDup (map ts (filter f evts)) ->
  filteredStableSort evts f = filteredStableSort evts' f.
Proof.
  intros Hperm Hnd.
  destruct (filteredStableSort_stable evts f) as (o1 & -> & Hp1 & Hc1 & _).
  destruct (filteredStableSort_stable evts' f) as (o2 & -> & Hp2 & Hc2 & _).
  f_equal.
  assert (Hp : Permutation o1 o2).
  { eapply Permutation_trans; [apply Permutation_sym, Hp1|].
    eapply Permutation_trans; [|exact Hp2].
    apply Permutation_filter, Hperm. }
  assert (Hnd1 : NoDup (map ts o1)).
  { eapply Permutation_NoDup; [|exact Hnd]. apply Permutation_map, Hp1. }
  assert (Hnd2 : NoDup (map ts o2)).
  { eapply Permutation_NoDup; [|exact Hnd1]. apply Permutation_map, Hp. }
  apply (StronglySorted_unique (fun a b => ts a < ts b)).
  - intros a b Hab Hba. lia.
  - apply chronological_distinct; assumption.
  - apply chronological_distinct; assumption.
  - exact Hp.
Qed.

Lemma filteredStableSort_capture_order_witness :
  filteredStableSort (traceEvents Samples.meaningfulFirst) isKeyEvent
  = filteredStableSort Examples.shuffled isKeyEvent.
Proof.
  apply filteredStableSort_capture_order.
  - apply Permutation_sym. unfold Examples.shuffled. simpl.
    apply (Permutation_cons_app [_; _; _] []).
    apply (Permutation_cons_app [_] [_]).
    apply Permutation_refl.
  - simpl. repeat constructor; simpl; intuition discriminate.
Defined.

(** ** The event sets of compute_ *)

(** X7.  In a returned artifact processEvents is what filteredStableSort
    returns on the whole trace for the start event's pid, and
    mainThreadEvents is what it returns for the start event's pid and tid
    together. *)
Theorem event_sets_are_sorts (findTracingStartedEvt : FrameResolver)
    (trace : Trace) (r : TraceOfTab) :
  compute_ findTracingStartedEvt trace = Ok r ->
  filteredStableSort (traceEvents trace)
    (fun e => pid e =? pid (startedInPageEvt r))
  = Ok (processEvents r) /\
  filteredStableSort (traceEvents trace)
    (fun e => (pid e =? pid (startedInPageEvt r)) &&
              (tid e =? tid (startedInPageEvt r)))
  = Ok (mainThreadEvents r).
Proof.
  intros Hr.
  destruct (compute_Ok_inv _ _ _ Hr)
    as (keyEvents & start & frameId & nav & fcp & procs & traceEnd
        & _ & _ & _ & _ & Hp & _ & ->).
  simpl. split; [exact Hp|].
  apply (filteredStableSort_filter_andb _ _ _
           (fun e => tid e =? tid start) Hp).
Qed.

Lemma event_sets_are_sorts_witness :
  exists r, compute_ Samples.resolver Samples.plain = Ok r /\
    filteredStableSort (traceEvents Samples.plain)
      (fun e => (pid e =? pid (startedInPageEvt r)) &&
                (tid e =? tid (startedInPageEvt r)))
    = Ok (mainThreadEvents r).
Proof.
  eexists. split.
  - vm_compute. reflexivity.
  - apply (event_sets_are_sorts Samples.resolver Samples.plain).
    vm_compute. reflexivity.
Defined.

(** ** Where the markers come from *)

Section FrameEvents.

Variable trace : Trace.
Variable keyEvents : list TraceEvent.
Variable frameId : string.
Hypothesis HkeyEvents :
  filteredStableSort (traceEvents trace) isKeyEvent = Ok keyEvents.

Lemma keyEvents_stablySorted :
  stablySorted (filter isKeyEvent (traceEvents trace)) keyEvents.
Proof.
  destruct (filteredStableSort_stable (traceEvents trace) isKeyEvent)
    as (k & Hk & Hstable).
  rewrite HkeyEvents in Hk. injection Hk as <-. exact Hstable.
Qed.

Lemma frameEvents_stablySorted :
  stablySorted
    (filter (inFrame frameId) (filter isKeyEvent (traceEvents trace)))
    (frameEventsOf frameId keyEvents).
Proof. apply stablySorted_filter, keyEvents_stablySorted. Qed.

Lemma frameEvents_In (e : TraceEvent) :
  In e (frameEventsOf frameId keyEvents) <-> frameKeyEvent trace frameId e.
Proof.
  destruct frameEvents_stablySorted as (Hperm & _).
  unfold frameKeyEvent. split.
  - intros He. apply (Permutation_in _ (Permutation_sym Hperm)) in He.
    rewrite !filter_In in He. tauto.
  - intros He. apply (Permutation_in _ Hperm).
    rewrite !filter_In. tauto.
Qed.

Lemma frameEvents_chronological : chronological (frameEventsOf frameId keyEvents).
Proof. apply frameEvents_stablySorted. Qed.

Lemma marker_found (m : string) (nav e : TraceEvent) :
  find (markerAfter m nav) (frameEventsOf frameId keyEvents) = Some e ->
  frameKeyEvent trace frameId e /\ name e = m /\ ts nav < ts e.
Proof.
  intros H. apply find_markerAfter_Some in H. destruct H as (Hin & Hn & Ht).
  apply frameEvents_In in Hin. auto.
Qed.

End FrameEvents.

(** X8.  Every marker event of a returned artifact is an event of the trace
    that passes the category filter and carries the resolved frame id.  The
    navigation start is a navigation start of interest; first paint, first
    contentful paint, load and DOM content loaded carry their marker name
    and a timestamp strictly after navigation start; the first meaningful
    paint does so when fmpFellBack is false and is named
    firstMeaningfulPaintCandidate when fmpFellBack is true. *)
Theorem marker_events (findTracingStartedEvt : FrameResolver) (trace : Trace)
    (keyEvents : list TraceEvent) (startEvt : TraceEvent) (frameId : string)
    (r : TraceOfTab) :
  filteredStableSort (traceEvents trace) isKeyEvent = Ok keyEvents ->
  findTracingStartedEvt keyEvents = Some (startEvt, frameId) ->
  compute_ findTracingStartedEvt trace = Ok r ->
  let after (m : string) (e : TraceEvent) :=
    frameKeyEvent trace frameId e /\ name e = m /\
    ts (navigationStartEvt r) < ts e in
  frameKeyEvent trace frameId (navigationStartEvt r) /\
  isNavigationStartOfInterest (navigationStartEvt r) = true /\
  after "firstContentfulPaint"%string (firstContentfulPaintEvt r) /\
  (forall e, firstPaintEvt r = Some e -> after "firstPaint"%string e) /\
  (forall e, loadEvt r = Some e -> after "loadEventEnd"%string e) /\
  (forall e, domContentLoadedEvt r = Some e ->
             after "domContentLoadedEventEnd"%string e) /\
  (forall e, firstMeaningfulPaintEvt r = Some e ->
             if fmpFellBack r
             then frameKeyEvent trace frameId e /\
                  name e = "firstMeaningfulPaintCandidate"%string
             else after "firstMeaningfulPaint"%string e).
Proof.
  intros Hk Hf Hr.
  destruct (compute_Ok_inv _ _ _ Hr)
    as (keyEvents' & start & frameId' & nav & fcp & procs & traceEnd
        & Hk' & Hf' & Hnav & Hfcp & _ & _ & ->).
  rewrite Hk in Hk'. injection Hk' as <-.
  rewrite Hf in Hf'. injection Hf' as <- <-.
  simpl.
  apply pop_In, filter_In in Hnav. destruct Hnav as [Hin Hint].
  apply (frameEvents_In trace keyEvents frameId Hk) in Hin.
  split; [exact Hin|]. split; [exact Hint|].
  split; [exact (marker_found _ _ _ Hk _ _ _ Hfcp)|].
  split; [intros e He; exact (marker_found _ _ _ Hk _ _ _ He)|].
  split; [intros e He; exact (marker_found _ _ _ Hk _ _ _ He)|].
  split; [intros e He; exact (marker_found _ _ _ Hk _ _ _ He)|].
  intros e. unfold resolveFirstMeaningfulPaint.
  destruct (find (markerAfter "firstMeaningfulPaint" nav)
                 (frameEventsOf frameId keyEvents)) as [fmp|] eqn:Hfmp; simpl.
  - intros [= <-]. exact (marker_found _ _ _ Hk _ _ _ Hfmp).
  - intros He. apply pop_In, filter_In in He. destruct He as [He Hc].
    apply (frameEvents_In trace keyEvents frameId Hk) in He.
    unfold isCandidate in Hc. apply String.eqb_eq in Hc. auto.
Qed.

Lemma marker_events_witness :
  exists r, compute_ Samples.resolver Examples.complete = Ok r /\
    frameKeyEvent Examples.complete "F" (navigationStartEvt r) /\
    forall e, loadEvt r = Some e ->
              frameKeyEvent Examples.complete "F" e /\
              name e = "loadEventEnd"%string /\
              ts (navigationStartEvt r) < ts e.
Proof.
  eexists. split; [vm_compute; reflexivity|].
  pose proof (marker_events Samples.resolver Examples.complete _
                Samples.started "F" _ eq_refl eq_refl eq_refl)
    as (Hnav & _ & _ & _ & Hload & _).
  split; [exact Hnav|exact Hload].
Defined.

(** ** First and last in time *)

Lemma find_defined {A : Type} (p : A -> bool) (l : list A) (y : A) :
  In y l -> p y = true -> exists x, find p l = Some x.
Proof.
  intros Hin Hp. destruct (find p l) as [x|] eqn:E; [eauto|].
  rewrite (find_none _ _ E y Hin) in Hp. discriminate.
Qed.

(** In a chronological list [find] returns an event of least timestamp
    among those that satisfy the predicate. *)
Lemma find_chronological_least (p : TraceEvent -> bool) (l : list TraceEvent)
    (x : TraceEvent) :
  chronological l -> find p l = Some x ->
  forall y, In y l -> p y = true -> ts x <= ts y.
Proof.
  induction 1 as [|a l Hs IH Hall]; [discriminate|].
  simpl. destruct (p a) eqn:Ha.
  - intros [= <-] y [<-|Hy] _; [lia|].
    rewrite Forall_forall in Hall. apply (Hall y Hy).
  - intros Hfind y [<-|Hy] Hp; [congruence|]. apply IH; assumption.
Qed.

Lemma sorted_before {A : Type} (R : A -> A -> Prop) (before after : list A) (x : A) :
  StronglySorted R (before ++ x :: after) -> Forall (fun y => R y x) before.
Proof.
  induction before as [|b before IH]; simpl; intros H; [constructor|].
  inversion H as [|? ? Hs Hall]; subst.
  constructor; [|apply IH, Hs].
  rewrite Forall_forall in Hall. apply Hall, in_or_app. right. left. reflexivity.
Qed.

(** In a chronological list [pop] of a filter returns an event of greatest
    timestamp among those that satisfy the predicate. *)
Lemma pop_chronological_greatest (p : TraceEvent -> bool) (l : list TraceEvent)
    (x : TraceEvent) :
  chronological l -> pop (filter p l) = Some x ->
  forall y, In y l -> p y = true -> ts y <= ts x.
Proof.
  intros Hc Hpop y Hy Hp.
  apply pop_filter_last in Hpop.
  destruct Hpop as (before & after & -> & Hx & Hafter).
  apply sorted_before in Hc. rewrite Forall_forall in Hc, Hafter.
  apply in_app_or in Hy. destruct Hy as [Hy|[<-|Hy]].
  - apply (Hc y Hy).
  - lia.
  - rewrite (Hafter y Hy) in Hp. discriminate.
Qed.

Section Resolved2.

Variable findTracingStartedEvt : FrameResolver.
Variable trace : Trace.
Variable keyEvents : list TraceEvent.
Variable startEvt : TraceEvent.
Variable frameId : string.
Variable r : TraceOfTab.

Hypothesis HkeyEvents :
  filteredStableSort (traceEvents trace) isKeyEvent = Ok keyEvents.
Hypothesis Hresolved :
  findTracingStartedEvt keyEvents = Some (startEvt, frameId).
Hypothesis Hr : compute_ findTracingStartedEvt trace = Ok r.

Lemma marker_least (m : string) (nav : TraceEvent) (e : TraceEvent) :
  frameKeyEvent trace frameId e -> name e = m -> ts nav < ts e ->
  exists x, find (markerAfter m nav) (frameEventsOf frameId keyEvents) = Some x /\
            ts x <= ts e.
Proof.
  intros He Hn Ht.
  apply (frameEvents_In trace keyEvents frameId HkeyEvents) in He.
  assert (Hp : markerAfter m nav e = true).
  { unfold markerAfter. apply andb_true_iff. split.
    - apply String.eqb_eq, Hn.
    - apply Z.gtb_lt, Ht. }
  destruct (find_defined _ _ _ He Hp) as (x & Hx).
  exists x. split; [exact Hx|].
  eapply find_chronological_least; try eassumption.
  apply (frameEvents_chronological trace keyEvents frameId HkeyEvents).
Qed.

Lemma resolved_artifact :
  exists nav fcp procs traceEnd,
    pop (filter isNavigationStartOfInterest (frameEventsOf frameId keyEvents))
    = Some nav /\
    find (markerAfter "firstContentfulPaint" nav) (frameEventsOf frameId keyEvents)
    = Some fcp /\
    r = artifact startEvt nav fcp (frameEventsOf frameId keyEvents) procs traceEnd.
Proof.
  destruct (compute_Ok_inv _ _ _ Hr)
    as (keyEvents' & start & frameId' & nav & fcp & procs & traceEnd
        & Hk' & Hf' & Hnav & Hfcp & _ & _ & ->).
  rewrite HkeyEvents in Hk'. injection Hk' as <-.
  rewrite Hresolved in Hf'. injection Hf' as <- <-.
  exists nav, fcp, procs, traceEnd. auto.
Qed.

(** X9.  The direct markers are the earliest of their kind: whenever an
    event of the trace passes the category filter, carries the frame id, has
    a marker's name and a timestamp after navigation start, the artifact has
    that marker, with a timestamp that is not later. *)
Theorem markers_are_earliest (e : TraceEvent) :
  frameKeyEvent trace frameId e ->
  ts (navigationStartEvt r) < ts e ->
  (name e = "firstContentfulPaint"%string ->
   ts (firstContentfulPaintEvt r) <= ts e) /\
  (name e = "firstPaint"%string ->
   exists x, firstPaintEvt r = Some x /\ ts x <= ts e) /\
  (name e = "firstMeaningfulPaint"%string ->
   exists x, firstMeaningfulPaintEvt r = Some x /\ fmpFellBack r = false /\
             ts x <= ts e) /\
  (name e = "loadEventEnd"%string ->
   exists x, loadEvt r = Some x /\ ts x <= ts e) /\
  (name e = "domContentLoadedEventEnd"%string ->
   exists x, domContentLoadedEvt r = Some x /\ ts x <= ts e).
Proof.
  destruct resolved_artifact as (nav & fcp & procs & traceEnd & _ & Hfcp & ->).
  simpl. intros He Ht.
  split; [|split; [|split; [|split]]]; intros Hn.
  - destruct (marker_least _ nav e He Hn Ht) as (x & Hx & Hle).
    rewrite Hfcp in Hx. injection Hx as <-. exact Hle.
  - exact (marker_least _ nav e He Hn Ht).
  - destruct (marker_least _ nav e He Hn Ht) as (x & Hx & Hle).
    unfold resolveFirstMeaningfulPaint. rewrite Hx. simpl. eauto.
  - exact (marker_least _ nav e He Hn Ht).
  - exact (marker_least _ nav e He Hn Ht).
Qed.

(** X10.  The navigation start is the latest of interest: no event of the
    trace that passes the category filter, carries the frame id and is a
    navigation start of interest has a later timestamp. *)
Theorem navigationStart_is_latest (e : TraceEvent) :
  frameKeyEvent trace frameId e ->
  isNavigationStartOfInterest e = true ->
  ts e <= ts (navigationStartEvt r).
Proof.
  destruct resolved_artifact as (nav & fcp & procs & traceEnd & Hnav & _ & ->).
  simpl. intros He Hint.
  apply (frameEvents_In trace keyEvents frameId HkeyEvents) in He.
  eapply pop_chronological_greatest; try eassumption.
  apply (frameEvents_chronological trace keyEvents frameId HkeyEvents).
Qed.

End Resolved2.

Lemma markers_are_earliest_witness :
  exists r, compute_ Samples.resolver Examples.complete = Ok r /\
    ts (firstContentfulPaintEvt r) <= 2000 /\
    exists x, loadEvt r = Some x /\ ts x <= 5000.
Proof.
  eexists. split; [vm_compute; reflexivity|].
  split.
  - apply (markers_are_earliest Samples.resolver Examples.complete _
             Samples.started "F" _ eq_refl eq_refl eq_refl
             (Samples.marker "firstContentfulPaint" 2000)).
    + unfold frameKeyEvent. simpl. intuition.
    + simpl. lia.
    + reflexivity.
  - apply (markers_are_earliest Samples.resolver Examples.complete _
             Samples.started "F" _ eq_refl eq_refl eq_refl
             (Samples.marker "loadEventEnd" 5000)).
    + unfold frameKeyEvent. simpl. intuition.
    + simpl. lia.
    + reflexivity.
Defined.

Lemma navigationStart_is_latest_witness :
  exists r, compute_ Samples.resolver Samples.twoNavigations = Ok r /\
    ts (Samples.navigation "https://example.com/" 1000)
    <= ts (navigationStartEvt r).
Proof.
  eexists. split; [vm_compute; reflexivity|].
  apply (navigationStart_is_latest Samples.resolver Samples.twoNavigations _
           Samples.started "F" _ eq_refl eq_refl eq_refl).
  - unfold frameKeyEvent. simpl. intuition.
  - reflexivity.
Defined.

(** ** Ties in time are settled by capture order *)

Lemma find_head_filter {A : Type} (p : A -> bool) (l : list A) :
  find p l = hd_error (filter p l).
Proof.
  induction l as [|a l IH]; simpl; [reflexivity|].
  destruct (p a); [reflexivity|exact IH].
Qed.

Lemma find_narrowed {A : Type} (p q : A -> bool) (l : list A) (x : A) :
  find p l = Some x -> q x = true ->
  find (fun e => p e && q e) l = Some x.
Proof.
  induction l as [|a l IH]; simpl; [discriminate|].
  destruct (p a) eqn:Ha; simpl.
  - intros [= <-] ->. reflexivity.
  - exact IH.
Qed.

Lemma pop_narrowed {A : Type} (p q : A -> bool) (l : list A) (x : A) :
  pop (filter p l) = Some x -> q x = true ->
  pop (filter (fun e => p e && q e) l) = Some x.
Proof.
  intros Hpop Hq. apply pop_filter_last in Hpop.
  destruct Hpop as (before & after & -> & Hp & Hafter).
  apply pop_filter_last. exists before, after.
  split; [reflexivity|]. split; [rewrite Hp, Hq; reflexivity|].
  eapply Forall_impl; [|exact Hafter]. simpl. intros y ->. reflexivity.
Qed.

(** The frame events that satisfy [p] at timestamp [t] are, in capture
    order, the events of the trace that pass the category filter, carry the
    frame id and satisfy [p] at timestamp [t]. *)
Lemma frameEvents_at_time (trace : Trace) (keyEvents : list TraceEvent)
    (frameId : string) (p : TraceEvent -> bool) (t : Z) :
  filteredStableSort (traceEvents trace) isKeyEvent = Ok keyEvents ->
  filter (fun e => p e && (ts e =? t)) (frameEventsOf frameId keyEvents)
  = filter (fun e => isKeyEvent e && inFrame frameId e && p e && (ts e =? t))
           (traceEvents trace).
Proof.
  intros Hk.
  destruct (frameEvents_stablySorted trace keyEvents frameId Hk) as (_ & _ & Hat).
  specialize (Hat t). unfold atTime in Hat.
  transitivity (filter p (filter (fun e => ts e =? t)
                                 (frameEventsOf frameId keyEvents))).
  - rewrite filter_filter_andb. apply filter_ext. intros e. apply andb_comm.
  - rewrite Hat, !filter_filter_andb. apply filter_ext. intros e.
    destruct (isKeyEvent e), (inFrame frameId e), (p e), (ts e =? t); reflexivity.
Qed.

(** X11.  Among the events that qualify as first contentful paint and share
    the timestamp of the one chosen, the chosen one is the first in the
    capture order of the trace. *)
Theorem firstContentfulPaint_first_captured (findTracingStartedEvt : FrameResolver)
    (trace : Trace) (keyEvents : list TraceEvent) (startEvt : TraceEvent)
    (frameId : string) (r : TraceOfTab) :
  filteredStableSort (traceEvents trace) isKeyEvent = Ok keyEvents ->
  findTracingStartedEvt keyEvents = Some (startEvt, frameId) ->
  compute_ findTracingStartedEvt trace = Ok r ->
  find (fun e => isKeyEvent e && inFrame frameId e &&
                 markerAfter "firstContentfulPaint" (navigationStartEvt r) e &&
                 (ts e =? ts (firstContentfulPaintEvt r)))
       (traceEvents trace)
  = Some (firstContentfulPaintEvt r).
Proof.
  intros Hk Hf Hr.
  destruct (resolved_artifact _ _ _ _ _ _ Hk Hf Hr)
    as (nav & fcp & procs & traceEnd & _ & Hfcp & ->).
  simpl.
  apply (find_narrowed _ (fun e => ts e =? ts fcp)) in Hfcp;
    [|apply Z.eqb_refl].
  rewrite find_head_filter in *.
  rewrite <- (frameEvents_at_time trace keyEvents frameId _ _ Hk). exact Hfcp.
Qed.

(** X12.  Among the navigation starts of interest that share the timestamp
    of the one chosen, the chosen one is the last in the capture order of
    the trace. *)
Theorem navigationStart_last_captured (findTracingStartedEvt : FrameResolver)
    (trace : Trace) (keyEvents : list TraceEvent) (startEvt : TraceEvent)
    (frameId : string) (r : TraceOfTab) :
  filteredStableSort (traceEvents trace) isKeyEvent = Ok keyEvents ->
  findTracingStartedEvt keyEvents = Some (startEvt, frameId) ->
  compute_ findTracingStartedEvt trace = Ok r ->
  pop (filter (fun e => isKeyEvent e && inFrame frameId e &&
                        isNavigationStartOfInterest e &&
                        (ts e =? ts (navigationStartEvt r)))
              (traceEvents trace))
  = Some (navigationStartEvt r).
Proof.
  intros Hk Hf Hr.
  destruct (resolved_artifact _ _ _ _ _ _ Hk Hf Hr)
    as (nav & fcp & procs & traceEnd & Hnav & _ & ->).
  simpl.
  apply (pop_narrowed _ (fun e => ts e =? ts nav)) in Hnav;
    [|apply Z.eqb_refl].
  rewrite <- (frameEvents_at_time trace keyEvents frameId _ _ Hk). exact Hnav.
Qed.

Lemma firstContentfulPaint_first_captured_witness :
  exists r, compute_ Samples.resolver Examples.tied = Ok r /\
    firstContentfulPaintEvt r = Examples.paint_on 7 2000 /\
    find (fun e => isKeyEvent e && inFrame "F" e &&
                   markerAfter "firstContentfulPaint" (navigationStartEvt r) e &&
                   (ts e =? ts (firstContentfulPaintEvt r)))
         (traceEvents Examples.tied)
    = Some (firstContentfulPaintEvt r).
Proof.
  eexists. split; [vm_compute; reflexivity|]. split; [reflexivity|].
  eapply (firstContentfulPaint_first_captured Samples.resolver Examples.tied
            _ Samples.started "F"); vm_compute; reflexivity.
Defined.

Lemma navigationStart_last_captured_witness :
  exists r, compute_ Samples.resolver Examples.tied = Ok r /\
    navigationStartEvt r = Examples.navigation_on 4 1000 /\
    pop (filter (fun e => isKeyEvent e && inFrame "F" e &&
                          isNavigationStartOfInterest e &&
                          (ts e =? ts (navigationStartEvt r)))
                (traceEvents Examples.tied))
    = Some (navigationStartEvt r).
Proof.
  eexists. split; [vm_compute; reflexivity|]. split; [reflexivity|].
  eapply (navigationStart_last_captured Samples.resolver Examples.tied
            _ Samples.started "F"); vm_compute; reflexivity.
Defined.

(** ** Timings of the optional markers and of the trace end *)

Lemma toMilliseconds_le (navTs a b : Z) :
  a <= b -> (toMilliseconds navTs a <= toMilliseconds navTs b)%Q.
Proof.
  intros H. unfold toMilliseconds, Qle, Qdiv, Qmult, Qinv, inject_Z. simpl. lia.
Qed.

(** X13.  In a returned artifact the timings of first paint, load and DOM
    content loaded, when present, are strictly positive: these markers lie
    strictly after navigation start. *)
Theorem optional_timings_positive (findTracingStartedEvt : FrameResolver)
    (trace : Trace) (r : TraceOfTab) :
  compute_ findTracingStartedEvt trace = Ok r ->
  forall q,
    TraceTimes.firstPaint (timings r) = Some q \/
    TraceTimes.load (timings r) = Some q \/
    TraceTimes.domContentLoaded (timings r) = Some q ->
    (0 < q)%Q.
Proof.
  intros Hr.
  destruct (compute_Ok_inv _ _ _ Hr)
    as (keyEvents & start & frameId & nav & fcp & procs & traceEnd
        & _ & _ & _ & _ & _ & _ & ->).
  simpl. intros q.
  assert (H : forall m,
             maybeGetTiming nav
               (getTimestamp (find (markerAfter m nav)
                                   (frameEventsOf frameId keyEvents))) = Some q ->
             (0 < q)%Q).
  { intros m.
    destruct (find (markerAfter m nav) (frameEventsOf frameId keyEvents))
      as [e|] eqn:He; simpl; [|discriminate].
    intros [= <-]. apply find_markerAfter_Some in He.
    apply toMilliseconds_pos, He. }
  intros [Hq|[Hq|Hq]]; eapply H; exact Hq.
Qed.

Lemma optional_timings_positive_witness :
  exists r q, compute_ Samples.resolver Examples.complete = Ok r /\
    TraceTimes.load (timings r) = Some q /\ (0 < q)%Q.
Proof.
  eexists. eexists. split; [vm_compute; reflexivity|].
  split; [reflexivity|].
  apply (optional_timings_positive Samples.resolver Examples.complete _ eq_refl).
  right. left. reflexivity.
Defined.

(** X14.  When no event of the trace has a negative duration, the traceEnd
    timestamp of a returned artifact is at least the timestamp of every
    event of the trace; so the traceEnd timing is positive and not smaller
    than the first-contentful-paint timing. *)
Theorem traceEnd_bounds_timestamps (findTracingStartedEvt : FrameResolver)
    (trace : Trace) (r : TraceOfTab) :
  (forall e d, In e (traceEvents trace) -> dur e = Some d -> 0 <= d) ->
  compute_ findTracingStartedEvt trace = Ok r ->
  (forall e, In e (traceEvents trace) ->
             ts e <= TraceTimes.traceEnd (timestamps r)) /\
  (TraceTimes.firstContentfulPaint (timings r)
   <= TraceTimes.traceEnd (timings r))%Q /\
  (0 < TraceTimes.traceEnd (timings r))%Q.
Proof.
  intros Hdur Hr.
  destruct (compute_Ok_inv _ _ _ Hr)
    as (keyEvents & start & frameId & nav & fcp & procs & traceEnd
        & Hk & _ & _ & Hfcp & _ & Hend & ->).
  simpl.
  destruct (reduceMaxTs_spec _ _ Hend) as (before & after & Heq & Hb & Ha).
  assert (Hlatest : In traceEnd (traceEvents trace)).
  { rewrite Heq. apply in_or_app. right. left. reflexivity. }
  assert (Hge : ts traceEnd <= endOf traceEnd).
  { unfold endOf. destruct (dur traceEnd) as [d|] eqn:Hd; [|lia].
    pose proof (Hdur _ _ Hlatest Hd). destruct (Z.eqb_spec d 0); lia. }
  assert (Hall : forall e, In e (traceEvents trace) -> ts e <= endOf traceEnd).
  { intros e He. rewrite Heq in He. rewrite Forall_forall in Hb, Ha.
    apply in_app_or in He. destruct He as [He|[<-|He]].
    - pose proof (Hb e He). lia.
    - exact Hge.
    - pose proof (Ha e He). lia. }
  apply find_markerAfter_Some in Hfcp. destruct Hfcp as (Hin & _ & Hlt).
  apply (frameEvent_in_trace _ _ _ _ Hk) in Hin.
  pose proof (Hall fcp Hin) as Hfcp_le.
  split; [exact Hall|]. split.
  - apply toMilliseconds_le, Hfcp_le.
  - apply toMilliseconds_pos. lia.
Qed.

Lemma traceEnd_bounds_timestamps_witness :
  exists r, compute_ Samples.resolver Samples.longSlice = Ok r /\
    (forall e, In e (traceEvents Samples.longSlice) ->
               ts e <= TraceTimes.traceEnd (timestamps r)) /\
    (TraceTimes.firstContentfulPaint (timings r)
     <= TraceTimes.traceEnd (timings r))%Q /\
    (0 < TraceTimes.traceEnd (timings r))%Q.
Proof.
  eexists. split; [vm_compute; reflexivity|].
  apply (traceEnd_bounds_timestamps Samples.resolver Samples.longSlice).
  - intros e d He Hd. simpl in He.
    repeat (destruct He as [<-|He]; [simpl in Hd; try discriminate;
                                     injection Hd as <-; lia|]).
    contradiction.
  - vm_compute. reflexivity.
Defined.

(** ** The trace end and the largest end of an event *)

Lemma fold_max_endOf (rest : list TraceEvent) (init : Z) :
  let m := fold_left (fun m e => Z.max m (endOf e)) rest init in
  init <= m /\
  (forall e, In e rest -> endOf e <= m) /\
  (m = init \/ exists e, In e rest /\ endOf e = m).
Proof.
  revert init. induction rest as [|a rest IH]; intros init; simpl.
  - split; [lia|]. split; [contradiction|]. left. reflexivity.
  - destruct (IH (Z.max init (endOf a))) as (Hge & Hall & Hwit).
    split; [lia|]. split.
    + intros e [<-|He]; [lia|]. apply Hall, He.
    + destruct Hwit as [Hm|(e & He & Hm)].
      * destruct (Z.max_spec init (endOf a)) as [[_ Hmax]|[_ Hmax]].
        -- right. exists a. split; [left; reflexivity|]. congruence.
        -- left. congruence.
      * right. exists e. auto.
Qed.

Lemma specTraceEnd_spec (evts : list TraceEvent) (m : Z) :
  specTraceEnd evts = Some m ->
  (forall e, In e evts -> endOf e <= m) /\
  (exists e, In e evts /\ endOf e = m).
Proof.
  destruct evts as [|first rest]; [discriminate|].
  simpl. intros [= <-].
  destruct (fold_max_endOf rest (endOf first)) as (Hge & Hall & Hwit).
  split.
  - intros e [<-|He]; [exact Hge|]. apply Hall, He.
  - destruct Hwit as [Hm|(e & He & Hm)].
    + exists first. split; [left; reflexivity|]. symmetry. exact Hm.
    + exists e. split; [right; exact He|exact Hm].
Qed.

(** X15.  The traceEnd timestamp of a returned artifact never exceeds the
    largest timestamp-plus-duration of the trace, and equals it exactly when
    no event of the trace ends after the traceEnd timestamp. *)
Theorem traceEnd_and_largest_end (findTracingStartedEvt : FrameResolver)
    (trace : Trace) (r : TraceOfTab) :
  compute_ findTracingStartedEvt trace = Ok r ->
  exists m,
    specTraceEnd (traceEvents trace) = Some m /\
    TraceTimes.traceEnd (timestamps r) <= m /\
    (TraceTimes.traceEnd (timestamps r) = m <->
     forall e, In e (traceEvents trace) ->
               endOf e <= TraceTimes.traceEnd (timestamps r)).
Proof.
  intros Hr.
  destruct (compute_Ok_inv _ _ _ Hr)
    as (keyEvents & start & frameId & nav & fcp & procs & traceEnd
        & _ & _ & _ & _ & _ & Hend & ->).
  simpl.
  destruct (reduceMaxTs_spec _ _ Hend) as (before & after & Heq & _ & _).
  assert (Hlatest : In traceEnd (traceEvents trace)).
  { rewrite Heq. apply in_or_app. right. left. reflexivity. }
  destruct (specTraceEnd (traceEvents trace)) as [m|] eqn:Hm.
  2: { destruct (traceEvents trace); [contradiction|discriminate]. }
  destruct (specTraceEnd_spec _ _ Hm) as (Hall & e0 & He0 & Hmax).
  exists m. split; [reflexivity|]. split; [apply Hall, Hlatest|].
  split.
  - intros -> e He. apply Hall, He.
  - intros Hle. pose proof (Hle e0 He0). pose proof (Hall _ Hlatest). lia.
Qed.

Lemma traceEnd_and_largest_end_witness :
  exists r, compute_ Samples.resolver Samples.longSlice = Ok r /\
  exists m,
    specTraceEnd (traceEvents Samples.longSlice) = Some m /\
    TraceTimes.traceEnd (timestamps r) <= m.
Proof.
  eexists. split; [vm_compute; reflexivity|].
  destruct (traceEnd_and_largest_end Samples.resolver Samples.longSlice _ eq_refl)
    as (m & Hm & Hle & _).
  exists m. split; [exact Hm|exact Hle].
Defined.

(** Membership in the two event sets. *)
Lemma process_events_In (findTracingStartedEvt : FrameResolver) (trace : Trace)
    (r : TraceOfTab) :
  compute_ findTracingStartedEvt trace = Ok r ->
  (forall e, In e (processEvents r) <->
             In e (traceEvents trace) /\ pid e = pid (startedInPageEvt r)) /\
  (forall e, In e (mainThreadEvents r) <->
             In e (processEvents r) /\ tid e = tid (startedInPageEvt r)).
Proof.
  intros Hr.
  destruct (compute_Ok_inv _ _ _ Hr)
    as (keyEvents & start & frameId & nav & fcp & procs & traceEnd
        & _ & _ & _ & _ & Hp & _ & ->).
  simpl.
  destruct (filteredStableSort_stable (traceEvents trace)
              (fun e => pid e =? pid start)) as (procs' & Hp' & Hperm & _).
  rewrite Hp in Hp'. injection Hp' as <-.
  split; intros e.
  - split.
    + intros He. apply (Permutation_in _ (Permutation_sym Hperm)) in He.
      apply filter_In in He. rewrite Z.eqb_eq in He. exact He.
    + intros He. apply (Permutation_in _ Hperm).
      apply filter_In. rewrite Z.eqb_eq. exact He.
  - rewrite filter_In, Z.eqb_eq. reflexivity.
Qed.

(** ** The frame resolver *)

(** X16.  compute_ fails with the resolver's failure exactly when the
    resolver fails on the chronologically sorted key events; that failure
    comes before the search for a navigation start, so it is also what a
    trace without navigation start fails with. *)
Theorem resolution_failure_propagates (findTracingStartedEvt : FrameResolver)
    (trace : Trace) :
  compute_ findTracingStartedEvt trace = Throw FrameResolutionFailure <->
  exists keyEvents,
    filteredStableSort (traceEvents trace) isKeyEvent = Ok keyEvents /\
    findTracingStartedEvt keyEvents = None.
Proof.
  destruct (keyEvents_exist trace) as (keyEvents & Hk). split.
  - intros Hfail. exists keyEvents. split; [exact Hk|].
    destruct (findTracingStartedEvt keyEvents) as [[start frameId]|] eqn:Hf;
      [|reflexivity].
    exfalso.
    destruct (pop (filter isNavigationStartOfInterest
                          (frameEventsOf frameId keyEvents))) as [nav|] eqn:Hn.
    2: { rewrite (compute_no_navstart _ _ _ Hk _ _ Hf Hn) in Hfail.
         discriminate. }
    destruct (find (markerAfter "firstContentfulPaint" nav)
                   (frameEventsOf frameId keyEvents)) as [fcp|] eqn:Hc.
    2: { rewrite (compute_no_fcp _ _ _ Hk _ _ Hf _ Hn Hc) in Hfail.
         discriminate. }
    destruct (compute_success _ _ _ Hk _ _ Hf _ Hn _ Hc)
      as (procs & traceEnd & _ & _ & Hok).
    rewrite Hok in Hfail. discriminate.
  - intros (keyEvents' & Hk' & Hf).
    rewrite Hk in Hk'. injection Hk' as <-.
    apply (compute_resolution_failure _ _ _ Hk Hf).
Qed.

(** X17.  The resolver is consulted once, on the stable chronological
    arrangement of the key events of the trace: two resolvers that agree on
    that list give the same outcome. *)
Theorem resolver_input (trace : Trace) :
  exists keyEvents,
    stablySorted (filter isKeyEvent (traceEvents trace)) keyEvents /\
    forall find1 find2 : FrameResolver,
      find1 keyEvents = find2 keyEvents ->
      compute_ find1 trace = compute_ find2 trace.
Proof.
  destruct (filteredStableSort_stable (traceEvents trace) isKeyEvent)
    as (keyEvents & Hk & Hstable).
  exists keyEvents. split; [exact Hstable|].
  intros find1 find2 Heq. unfold compute_. rewrite Hk. simpl.
  unfold resolveFrame. rewrite Heq. reflexivity.
Qed.

(** X18.  When the start event the resolver returns is an event of the
    trace, it belongs to mainThreadEvents, and so to processEvents. *)
Theorem start_event_in_main_thread (findTracingStartedEvt : FrameResolver)
    (trace : Trace) (r : TraceOfTab) :
  compute_ findTracingStartedEvt trace = Ok r ->
  In (startedInPageEvt r) (traceEvents trace) ->
  In (startedInPageEvt r) (mainThreadEvents r) /\
  In (startedInPageEvt r) (processEvents r).
Proof.
  intros Hr Hin.
  destruct (process_events_In _ _ _ Hr) as (Hproc & Hmain).
  assert (Hp : In (startedInPageEvt r) (processEvents r))
    by (apply Hproc; auto).
  split; [|exact Hp]. apply Hmain. auto.
Qed.

Lemma start_event_in_main_thread_witness :
  exists r, compute_ Samples.resolver Samples.plain = Ok r /\
    In (startedInPageEvt r) (mainThreadEvents r) /\
    In (startedInPageEvt r) (processEvents r).
Proof.
  eexists. split; [vm_compute; reflexivity|].
  apply (start_event_in_main_thread Samples.resolver Samples.plain).
  - vm_compute. reflexivity.
  - simpl. right. left. reflexivity.
Defined.

(** ** Events outside the key categories *)

Lemma keyEvents_determined (t1 t2 : Trace) (k1 k2 : list TraceEvent) :
  filter isKeyEvent (traceEvents t1) = filter isKeyEvent (traceEvents t2) ->
  filteredStableSort (traceEvents t1) isKeyEvent = Ok k1 ->
  filteredStableSort (traceEvents t2) isKeyEvent = Ok k2 ->
  k1 = k2.
Proof.
  intros Heq H1 H2.
  pose proof (keyEvents_stablySorted t1 k1 H1) as S1.
  pose proof (keyEvents_stablySorted t2 k2 H2) as S2.
  rewrite Heq in S1. eapply stablySorted_unique; eassumption.
Qed.

(** X19.  Events outside the key categories decide nothing about markers:
    two traces with the same key events in the same capture order fail with
    the same exception, or both return artifacts with the same start event,
    the same marker events and fmpFellBack, and the same timestamps and
    timings of every marker other than traceEnd. *)
Theorem markers_depend_on_key_events (findTracingStartedEvt : FrameResolver)
    (t1 t2 : Trace) :
  filter isKeyEvent (traceEvents t1) = filter isKeyEvent (traceEvents t2) ->
  (forall x, compute_ findTracingStartedEvt t1 = Throw x ->
             compute_ findTracingStartedEvt t2 = Throw x) /\
  (forall r1, compute_ findTracingStartedEvt t1 = Ok r1 ->
     exists r2, compute_ findTracingStartedEvt t2 = Ok r2 /\
       markerEvents r1 = markerEvents r2 /\
       markerTimes (timestamps r1) = markerTimes (timestamps r2) /\
       markerTimes (timings r1) = markerTimes (timings r2)).
Proof.
  intros Heq.
  destruct (keyEvents_exist t1) as (k & Hk1).
  destruct (keyEvents_exist t2) as (k2 & Hk2).
  assert (k = k2) as <- by (eapply keyEvents_determined; eassumption).
  destruct (findTracingStartedEvt k) as [[start frameId]|] eqn:Hf.
  2: { rewrite (compute_resolution_failure _ _ _ Hk1 Hf),
         (compute_resolution_failure _ _ _ Hk2 Hf).
       split; [auto|discriminate]. }
  destruct (pop (filter isNavigationStartOfInterest (frameEventsOf frameId k)))
    as [nav|] eqn:Hn.
  2: { rewrite (compute_no_navstart _ _ _ Hk1 _ _ Hf Hn),
         (compute_no_navstart _ _ _ Hk2 _ _ Hf Hn).
       split; [auto|discriminate]. }
  destruct (find (markerAfter "firstContentfulPaint" nav) (frameEventsOf frameId k))
    as [fcp|] eqn:Hc.
  2: { rewrite (compute_no_fcp _ _ _ Hk1 _ _ Hf _ Hn Hc),
         (compute_no_fcp _ _ _ Hk2 _ _ Hf _ Hn Hc).
       split; [auto|discriminate]. }
  destruct (compute_success _ _ _ Hk1 _ _ Hf _ Hn _ Hc)
    as (procs1 & end1 & _ & _ & ->).
  destruct (compute_success _ _ _ Hk2 _ _ Hf _ Hn _ Hc)
    as (procs2 & end2 & _ & _ & ->).
  split; [discriminate|].
  intros r1 [= <-]. eexists. split; [reflexivity|].
  repeat split.
Qed.

Lemma markers_depend_on_key_events_witness :
  exists r1 r2,
    compute_ Samples.resolver Samples.plain = Ok r1 /\
    compute_ Samples.resolver Examples.plainWithSlices = Ok r2 /\
    markerEvents r1 = markerEvents r2 /\
    TraceTimes.traceEnd (timestamps r1) <> TraceTimes.traceEnd (timestamps r2).
Proof.
  eexists. eexists.
  split; [vm_compute; reflexivity|]. split; [vm_compute; reflexivity|].
  split; [|vm_compute; discriminate].
  destruct (markers_depend_on_key_events Samples.resolver Samples.plain
              Examples.plainWithSlices eq_refl) as (_ & Hok).
  destruct (Hok _ eq_refl) as (r2 & Hr2 & Hevents & _).
  vm_compute in Hr2. injection Hr2 as <-. exact Hevents.
Defined.

(** ** The category filter *)

Lemma prefix_iff (p s : string) :
  String.prefix p s = true <-> exists rest, s = (p ++ rest)%string.
Proof.
  revert s. induction p as [|a p IH]; intros s.
  - split; [intros _; exists s; reflexivity|intros _; destruct s; reflexivity].
  - destruct s as [|b s].
    + split; [discriminate|intros (rest & H); discriminate].
    + change (String.prefix (String a p) (String b s))
        with (if ascii_dec a b then String.prefix p s else false).
      destruct (ascii_dec a b) as [<-|Hne].
      * rewrite IH. split.
        -- intros (rest & ->). exists rest. reflexivity.
        -- intros (rest & [= ->]). exists rest. reflexivity.
      * split; [discriminate|]. intros (rest & [= H _]). congruence.
Qed.

(** [includes] is [String.prototype.includes]: the second string occurs
    somewhere in the first. *)
Lemma includes_iff (s sub : string) :
  includes s sub = true <-> exists pre post, s = (pre ++ sub ++ post)%string.
Proof.
  unfold includes. induction s as [|b s IH].
  - simpl. destruct sub as [|a sub].
    + split; [intros _; exists EmptyString, EmptyString; reflexivity|reflexivity].
    + split; [discriminate|]. intros (pre & post & H).
      destruct pre; discriminate.
  - change (String.index 0 sub (String b s))
      with (if String.prefix sub (String b s) then Some 0%nat
            else match String.index 0 sub s with
                 | Some n => Some (S n)
                 | None => None
                 end).
    destruct (String.prefix sub (String b s)) eqn:Hp.
    + split; [intros _|reflexivity].
      apply prefix_iff in Hp. destruct Hp as (rest & ->).
      exists EmptyString, rest. reflexivity.
    + assert (Hnot : ~ exists rest, String b s = (sub ++ rest)%string).
      { intros H. apply prefix_iff in H. congruence. }
      destruct (String.index 0 sub s) as [n|] eqn:Hi.
      * split; [intros _|reflexivity].
        destruct (proj1 IH eq_refl) as (pre & post & ->).
        exists (String b pre), post. reflexivity.
      * split; [discriminate|]. intros (pre & post & H).
        destruct pre as [|c pre].
        -- exfalso. apply Hnot. exists post. exact H.
        -- injection H as _ H.
           assert (Hs : false = true); [|discriminate].
           apply IH. exists pre, post. exact H.
Qed.

(** X20.  The category filter of compute_ keeps an event exactly when its
    category string contains blink.user_timing, loading or devtools.timeline
    anywhere (so also inside a longer, comma-separated or prefixed category),
    or is exactly __metadata. *)
Theorem isKeyEvent_iff (e : TraceEvent) :
  isKeyEvent e = true <->
  (exists pre post, cat e = (pre ++ "blink.user_timing" ++ post)%string) \/
  (exists pre post, cat e = (pre ++ "loading" ++ post)%string) \/
  (exists pre post, cat e = (pre ++ "devtools.timeline" ++ post)%string) \/
  cat e = "__metadata"%string.
Proof.
  unfold isKeyEvent.
  rewrite !orb_true_iff, !includes_iff, String.eqb_eq. tauto.
Qed.

(** ** The accepted navigation URLs *)

Lemma strip_app (p q s : string) :
  strip (p ++ q) s
  = match strip p s with
    | Some rest => strip q rest
    | None => None
    end.
Proof.
  revert s. induction p as [|a p IH]; intros s; simpl.
  - destruct q; reflexivity.
  - destruct s as [|b s]; [reflexivity|].
    destruct (Ascii.eqb a b); [apply IH|reflexivity].
Qed.

Lemma prefix_strip (p s : string) :
  String.prefix p s = match strip p s with Some _ => true | None => false end.
Proof.
  revert s. induction p as [|a p IH]; intros s.
  - destruct s; reflexivity.
  - destruct s as [|b s]; [reflexivity|].
    change (String.prefix (String a p) (String b s))
      with (if ascii_dec a b then String.prefix p s else false).
    simpl. destruct (ascii_dec a b) as [<-|Hne].
    + rewrite Ascii.eqb_refl. apply IH.
    + destruct (Ascii.eqb_spec a b); [contradiction|reflexivity].
Qed.

(** X21.  The regular expression /^(chrome|https?):/, matched with
    backtracking at the start of the URL, accepts exactly the URLs that
    start with chrome:, http: or https:. *)
Theorem ACCEPTABLE_NAVIGATION_URL_REGEX_accepts (url : string) :
  anchoredTest ACCEPTABLE_NAVIGATION_URL_REGEX url
  = ACCEPTABLE_NAVIGATION_URL_REGEX_test url /\
  (anchoredTest ACCEPTABLE_NAVIGATION_URL_REGEX url = true <->
   exists rest, url = ("chrome:" ++ rest)%string \/
                url = ("http:" ++ rest)%string \/
                url = ("https:" ++ rest)%string).
Proof.
  assert (Heq : anchoredTest ACCEPTABLE_NAVIGATION_URL_REGEX url
                = ACCEPTABLE_NAVIGATION_URL_REGEX_test url).
  { unfold anchoredTest, ACCEPTABLE_NAVIGATION_URL_REGEX,
      ACCEPTABLE_NAVIGATION_URL_REGEX_test.
    rewrite !prefix_strip.
    change "chrome:"%string with ("chrome" ++ ":")%string.
    change "http:"%string with ("http" ++ ":")%string.
    change "https:"%string with ("http" ++ "s" ++ ":")%string.
    rewrite !strip_app. cbn [matchAt].
    destruct (strip "chrome" url) as [r1|];
      destruct (strip "http" url) as [r2|];
      rewrite ?strip_app;
      try destruct (strip ":" r1); try destruct (strip ":" r2);
      try destruct (strip "s" r2) as [r3|]; try destruct (strip ":" r3);
      reflexivity. }
  split; [exact Heq|].
  rewrite Heq. unfold ACCEPTABLE_NAVIGATION_URL_REGEX_test.
  rewrite !orb_true_iff, !prefix_iff. split.
  - intros [[(rest & H)|(rest & H)]|(rest & H)]; exists rest; auto.
  - intros (rest & [H|[H|H]]); eauto.
Qed.

(** ** The first-meaningful-paint fallback, read on the trace *)

Lemma pop_defined {A : Type} (p : A -> bool) (l : list A) (y : A) :
  In y l -> p y = true -> exists x, pop (filter p l) = Some x.
Proof.
  intros Hin Hp. destruct (pop (filter p l)) as [x|] eqn:E; [eauto|].
  apply pop_None in E. rewrite filter_nil_iff in E.
  rewrite (E y Hin) in Hp. discriminate.
Qed.

(** X22.  fmpFellBack is false exactly when some event of the trace passes
    the category filter, carries the frame id, is named firstMeaningfulPaint
    and lies after navigation start.  When fmpFellBack is true and the trace
    has such an event named firstMeaningfulPaintCandidate, the artifact has a
    first-meaningful-paint event and no such candidate is later in time. *)
Theorem fallback_on_trace (findTracingStartedEvt : FrameResolver)
    (trace : Trace) (keyEvents : list TraceEvent) (startEvt : TraceEvent)
    (frameId : string) (r : TraceOfTab) :
  filteredStableSort (traceEvents trace) isKeyEvent = Ok keyEvents ->
  findTracingStartedEvt keyEvents = Some (startEvt, frameId) ->
  compute_ findTracingStartedEvt trace = Ok r ->
  (fmpFellBack r = false <->
   exists e, frameKeyEvent trace frameId e /\
             name e = "firstMeaningfulPaint"%string /\
             ts (navigationStartEvt r) < ts e) /\
  (fmpFellBack r = true ->
   forall e, frameKeyEvent trace frameId e ->
             name e = "firstMeaningfulPaintCandidate"%string ->
             exists x, firstMeaningfulPaintEvt r = Some x /\ ts e <= ts x).
Proof.
  intros Hk Hf Hr.
  destruct (resolved_artifact _ _ _ _ _ _ Hk Hf Hr)
    as (nav & fcp & procs & traceEnd & _ & _ & ->).
  simpl. unfold resolveFirstMeaningfulPaint.
  destruct (find (markerAfter "firstMeaningfulPaint" nav)
                 (frameEventsOf frameId keyEvents)) as [fmp|] eqn:Hfmp; simpl.
  - split; [|discriminate].
    split; [intros _|reflexivity].
    exists fmp. exact (marker_found _ _ _ Hk _ _ _ Hfmp).
  - split.
    + split; [discriminate|].
      intros (e & He & Hn & Ht).
      destruct (marker_least _ _ _ Hk _ nav e He Hn Ht) as (x & Hx & _).
      congruence.
    + intros _ e He Hn.
      apply (frameEvents_In trace keyEvents frameId Hk) in He.
      assert (Hc : isCandidate e = true)
        by (unfold isCandidate; apply String.eqb_eq, Hn).
      destruct (pop_defined _ _ _ He Hc) as (x & Hx).
      exists x. split; [exact Hx|].
      eapply pop_chronological_greatest; try eassumption.
      apply (frameEvents_chronological trace keyEvents frameId Hk).
Qed.

Lemma fallback_on_trace_witness :
  exists r, compute_ Samples.resolver Samples.candidatesOnly = Ok r /\
    fmpFellBack r = true /\
    exists x, firstMeaningfulPaintEvt r = Some x /\ 300 <= ts x.
Proof.
  eexists. split; [vm_compute; reflexivity|]. split; [reflexivity|].
  pose proof (fallback_on_trace Samples.resolver Samples.candidatesOnly _
                Samples.started "F" _ eq_refl eq_refl eq_refl) as (_ & Hlate).
  apply (Hlate eq_refl (Samples.marker "firstMeaningfulPaintCandidate" 300)).
  - unfold frameKeyEvent. simpl. intuition.
  - reflexivity.
Defined.
